(** * chemlab: the GROMACS [.gro] reader and writer

    A shallow embedding of [chemlab/io/handlers/gro.py]
    ([parse_gro_lines], [write_gro], [GromacsIO]) together with the
    part of the Python runtime the handler relies on (string slicing,
    [strip], [split], [int], [float], [str.format]), and the properties
    of the handler that follow from the code. *)

From Stdlib Require Import ZArith NArith Ascii String List Lia Bool Sorted.
From stdpp Require Import base option list gmap strings.

Local Open Scope nat_scope.

(** ** Python values and exceptions *)

(** A Python 2 [str] is a sequence of 8-bit characters. *)
Abbreviation text := (list ascii).

(** String literals of the source, as [text]. *)
Definition txt (s : string) : text := list_ascii_of_string s.

(** The exceptions the handler can raise.  [Exception] is the bare
    [Exception(msg)] of [write_gro]. *)
Inductive exn : Type :=
  | IndexError
  | ValueError
  | UnboundLocalError (name : string)
  | IOError (filename : string)
  | Exception (msg : string).

Inductive result (A : Type) : Type :=
  | Ok (a : A)
  | Raise (e : exn).
Arguments Ok {A} a.
Arguments Raise {A} e.

Definition bind {A B} (r : result A) (k : A -> result B) : result B :=
  match r with
  | Ok a => k a
  | Raise e => Raise e
  end.

Notation "'let*' x ':=' e 'in' k" := (bind e (fun x => k))
  (at level 10, x pattern, e at level 100, k at level 200).

(** [xs[i]] on a list or array with a non-negative index. *)
Definition getitem {A} (xs : list A) (i : nat) : result A :=
  match xs !! i with
  | Some x => Ok x
  | None => Raise IndexError
  end.

(** Running a loop body over a sequence, threading the loop state;
    the first exception leaves the loop. *)
Fixpoint for_each {A St} (body : A -> St -> result St) (xs : list A) (s : St)
  : result St :=
  match xs with
  | [] => Ok s
  | x :: xs' => let* s' := body x s in for_each body xs' s'
  end.

(** [[f(x) for x in xs]] where [f] can raise. *)
Fixpoint map_result {A B} (f : A -> result B) (xs : list A) : result (list B) :=
  match xs with
  | [] => Ok []
  | x :: xs' =>
      let* y := f x in
      let* ys := map_result f xs' in
      Ok (y :: ys)
  end.

(** ** Strings *)

Module Str.

(** [c.isspace()] for an 8-bit character: space, \t, \n, \v, \f, \r. *)
Definition is_space (c : ascii) : bool :=
  let n := nat_of_ascii c in
  (n =? 32) || ((9 <=? n) && (n <=? 13)).

Definition newline : ascii := ascii_of_nat 10.
Definition space : ascii := ascii_of_nat 32.

Fixpoint lstrip (s : text) : text :=
  match s with
  | [] => []
  | c :: s' => if is_space c then lstrip s' else s
  end.

Definition rstrip (s : text) : text := rev (lstrip (rev s)).

(** [s.strip()] *)
Definition strip (s : text) : text := rstrip (lstrip s).

(** [s.split()] with no argument: the maximal runs of non-whitespace.
    [cur] is the current token, reversed. *)
Fixpoint split_from (cur : text) (s : text) : list text :=
  match s with
  | [] => match cur with [] => [] | _ => [rev cur] end
  | c :: s' =>
      if is_space c
      then match cur with
           | [] => split_from [] s'
           | _ => rev cur :: split_from [] s'
           end
      else split_from (c :: cur) s'
  end.

Definition split (s : text) : list text := split_from [] s.

(** [s[a:b]] for literal bounds [0 <= a <= b]; out-of-range bounds are
    clamped, as Python does. *)
Definition slice (a b : nat) (s : text) : text := take (b - a) (drop a s).

(** ['{:>w}'.format(s)] and ['{:<w}'.format(s)]: pad to a minimum width,
    never truncate. *)
Definition rjust (w : nat) (s : text) : text :=
  replicate (w - length s) space ++ s.

Definition ljust (w : nat) (s : text) : text :=
  s ++ replicate (w - length s) space.

(** [f.readlines()]: the lines of a file, each with its terminating
    newline; a last line without one is kept as it is. *)
Fixpoint readlines_from (cur : text) (s : text) : list text :=
  match s with
  | [] => match cur with [] => [] | _ => [rev cur] end
  | c :: s' =>
      if Ascii.eqb c newline
      then rev (c :: cur) :: readlines_from [] s'
      else readlines_from (c :: cur) s'
  end.

Definition readlines (s : text) : list text := readlines_from [] s.

End Str.

(** ** Integers *)

Module Int.

Definition digit_val (c : ascii) : option N :=
  let n := nat_of_ascii c in
  if (48 <=? n) && (n <=? 57) then Some (N.of_nat (n - 48)) else None.

Definition is_digit (c : ascii) : bool :=
  match digit_val c with Some _ => true | None => false end.

(** Value of a run of decimal digits, most significant first. *)
Fixpoint digits_val (acc : N) (s : text) : option N :=
  match s with
  | [] => Some acc
  | c :: s' =>
      match digit_val c with
      | Some d => digits_val (10 * acc + d) s'
      | None => None
      end
  end.

(** Optional sign in front of a literal. *)
Definition take_sign (s : text) : bool * text :=
  match s with
  | c :: s' =>
      if Ascii.eqb c "-" then (true, s')
      else if Ascii.eqb c "+" then (false, s')
      else (false, s)
  | [] => (false, s)
  end.

(** [int(s)] on a [str], as the language reference gives it:
    surrounding whitespace, an optional sign, at least one decimal
    digit, nothing else. *)
Definition int (s : text) : result Z :=
  let '(neg, body) := take_sign (Str.strip s) in
  match body with
  | [] => Raise ValueError
  | _ =>
      match digits_val 0 body with
      | Some n => Ok (if neg then - Z.of_N n else Z.of_N n)%Z
      | None => Raise ValueError
      end
  end.

Definition digit_char (d : N) : ascii := ascii_of_nat (48 + N.to_nat d).

(** Decimal digits of [n], most significant first, consed onto [acc]. *)
Fixpoint digits_onto (fuel : nat) (n : N) (acc : text) : text :=
  match fuel with
  | 0 => acc
  | S fuel' =>
      let acc' := digit_char (n mod 10) :: acc in
      if (n / 10 =? 0)%N then acc' else digits_onto fuel' (n / 10) acc'
  end.

(** [str(n)] for a non-negative integer. *)
Definition str (n : N) : text := digits_onto (S (N.to_nat (N.log2 n))) n [].

End Int.

(** ** Floating-point numbers *)

Module Float.

(** A Python [float] is an IEEE 754 binary64 value.  A finite value is
    [(-1)^neg * m * 2^e]; zero is [Fin neg 0 0]. *)
Inductive float : Type :=
  | Nan
  | Inf (neg : bool)
  | Fin (neg : bool) (m : N) (e : Z).

(** [a / b] rounded to the nearest integer, ties to even
    ([0 <= a], [0 < b]). *)
Definition rne (a b : Z) : Z :=
  let q := (a / b)%Z in
  match (2 * (a mod b) ?= b)%Z with
  | Lt => q
  | Gt => (q + 1)%Z
  | Eq => if Z.even q then q else (q + 1)%Z
  end.

(** The binary64 value nearest to [n / d] ([0 <= n], [0 < d]), ties to
    even: 53 significant bits, least exponent -1074, overflow to
    infinity. *)
Definition of_ratio (neg : bool) (n d : Z) : float :=
  if (n =? 0)%Z then Fin neg 0 0 else
  let l := (Z.log2 n - Z.log2 d)%Z in
  let below :=
    if (0 <=? l)%Z then (n <? d * 2 ^ l)%Z else (n * 2 ^ (- l) <? d)%Z in
  let e0 := if below then (l - 1)%Z else l in
  let e := Z.max (e0 - 52) (-1074) in
  let m := if (0 <=? e)%Z then rne n (d * 2 ^ e) else rne (n * 2 ^ (- e)) d in
  let '(m, e) := if (m =? 2 ^ 53)%Z then (2 ^ 52, e + 1)%Z else (m, e) in
  if (m =? 0)%Z then Fin neg 0 0
  else if (971 <? e)%Z then Inf neg
  else Fin neg (Z.to_N m) e.

(** The binary64 value nearest to [n * 10^k]. *)
Definition of_decimal (neg : bool) (n : N) (k : Z) : float :=
  if (0 <=? k)%Z then of_ratio neg (Z.of_N n * 10 ^ k) 1
  else of_ratio neg (Z.of_N n) (10 ^ (- k)).

Definition lower (c : ascii) : ascii :=
  let n := nat_of_ascii c in
  if (65 <=? n) && (n <=? 90) then ascii_of_nat (n + 32) else c.

(** The longest prefix of decimal digits, and the rest. *)
Fixpoint span_digits (s : text) : text * text :=
  match s with
  | c :: s' =>
      if Int.is_digit c
      then let '(d, r) := span_digits s' in (c :: d, r)
      else ([], s)
  | [] => ([], [])
  end.

(** What follows the mantissa of a literal: nothing, or [e], an optional
    sign and at least one digit. *)
Definition exponent (s : text) : option Z :=
  match s with
  | [] => Some 0%Z
  | c :: s' =>
      if Ascii.eqb (lower c) "e"
      then
        let '(neg, body) := Int.take_sign s' in
        match body with
        | [] => None
        | _ =>
            match Int.digits_val 0 body with
            | Some n => Some (if neg then - Z.of_N n else Z.of_N n)%Z
            | None => None
            end
        end
      else None
  end.

(** [float(s)]: surrounding whitespace, an optional sign, then [inf],
    [infinity] or [nan] in any case, or a decimal literal with an
    optional fraction and exponent. *)
Definition of_text (s : text) : result float :=
  let '(neg, body) := Int.take_sign (Str.strip s) in
  let low := map lower body in
  if bool_decide (low = txt "inf") || bool_decide (low = txt "infinity")
  then Ok (Inf neg)
  else if bool_decide (low = txt "nan") then Ok Nan
  else
    let '(d1, r1) := span_digits body in
    let '(d2, r2) :=
      match r1 with
      | c :: r => if Ascii.eqb c "." then span_digits r else ([], r1)
      | [] => ([], [])
      end in
    match d1 ++ d2 with
    | [] => Raise ValueError
    | ds =>
        match Int.digits_val 0 ds, exponent r2 with
        | Some n, Some x => Ok (of_decimal neg n (x - Z.of_nat (length d2)))
        | _, _ => Raise ValueError
        end
    end.

Definition sign_text (neg : bool) : text := if neg then txt "-" else [].

(** The decimal digits of [r / 10^p] with [p] digits after the point. *)
Definition fixed (p : nat) (r : N) : text :=
  let ip := Int.str (r / 10 ^ N.of_nat p) in
  match p with
  | 0 => ip
  | _ =>
      let fr := Int.str (r mod 10 ^ N.of_nat p) in
      ip ++ "."%char :: replicate (p - length fr) "0"%char ++ fr
  end.

(** [m * 2^e * 10^p] rounded to the nearest integer, ties to even. *)
Definition scaled (p : nat) (m : N) (e : Z) : N :=
  Z.to_N (if (0 <=? e)%Z
          then Z.of_N m * 2 ^ e * 10 ^ Z.of_nat p
          else rne (Z.of_N m * 10 ^ Z.of_nat p) (2 ^ (- e))).

(** ['{:.pf}'.format(x)]: the exact value of [x] correctly rounded to
    [p] decimals. *)
Definition format_f (p : nat) (x : float) : text :=
  match x with
  | Nan => txt "nan"
  | Inf neg => sign_text neg ++ txt "inf"
  | Fin neg m e => sign_text neg ++ fixed p (scaled p m e)
  end.

End Float.

(** ** numpy *)

Module Np.

(** Stable insertion of a (value, index) pair among pairs sorted by
    value: after the pairs with a smaller value, before those with an
    equal or larger one. *)
Fixpoint insert (x : Z * nat) (l : list (Z * nat)) : list (Z * nat) :=
  match l with
  | [] => [x]
  | y :: l' => if (x.1 <=? y.1)%Z then x :: l else y :: insert x l'
  end.

(** [ar.argsort(kind='mergesort')] paired with the sorted values: a
    stable sort of the values with their positions. *)
Definition sort_indexed (ar : list Z) : list (Z * nat) :=
  foldr insert [] (zip ar (seq 0 (length ar))).

(** The first pair of every run of equal values
    ([flag = [True] + (aux[1:] != aux[:-1])]). *)
Fixpoint run_heads (prev : option Z) (aux : list (Z * nat)) : list (Z * nat) :=
  match aux with
  | [] => []
  | (v, i) :: aux' =>
      if bool_decide (prev = Some v)
      then run_heads (Some v) aux'
      else (v, i) :: run_heads (Some v) aux'
  end.

(** [np.unique(ar, return_index=True)]: the distinct values in
    ascending order, and for each the index of its first occurrence. *)
Definition unique (ar : list Z) : list Z * list nat :=
  let heads := run_heads None (sort_indexed ar) in
  (heads.*1, heads.*2).

(** [a[idx]] with an array of indices. *)
Definition take_at {A} (a : list A) (idx : list nat) : result (list A) :=
  map_result (getitem a) idx.

(** [a[s:e]] on an array. *)
Definition slice {A} (s e : nat) (a : list A) : list A := take (e - s) (drop s a).

End Np.

(** ** The system model *)

Import Float.

Abbreviation dict := (gmap string text).
Abbreviation vec3 := (float * float * float)%type.
Abbreviation matrix := (vec3 * vec3 * vec3)%type.

(** The fields of [chemlab.core.System] that the handler reads or
    sets.  [box_vectors] is [None] until it is set. *)
Record System : Type := mkSystem {
  r_array : list vec3;
  mol_indices : list nat;
  type_array : list text;
  atom_export_array : list dict;
  mol_export : list dict;
  mol_formula : list text;
  box_vectors : option matrix;
  n_mol : nat;
  n_atoms : nat;
  mol_n_atoms : list nat
}.

(** The atom count of each molecule: from its offset to the next
    offset, or to the end for the last one. *)
Fixpoint counts (end_ : nat) (idx : list nat) : list nat :=
  match idx with
  | [] => []
  | s :: rest =>
      (match rest with e :: _ => e | [] => end_ end - s) :: counts end_ rest
  end.

(** Modelled from the spec: [System.from_arrays] is in
    [chemlab/core/system.py], which is not part of the handler.  It
    stores the arrays it is given and derives the counts from them. *)
Definition from_arrays (r_array : list vec3) (mol_indices : list nat)
    (type_array : list text) (atom_export_array mol_export : list dict)
    (mol_formula : list text) (box_vectors : matrix) : System :=
  {| r_array := r_array;
     mol_indices := mol_indices;
     type_array := type_array;
     atom_export_array := atom_export_array;
     mol_export := mol_export;
     mol_formula := mol_formula;
     box_vectors := Some box_vectors;
     n_mol := length mol_indices;
     n_atoms := length r_array;
     mol_n_atoms := counts (length r_array) mol_indices |}.

(** ** The reader *)

Section Reader.

(** [gro_to_cl], the table of [gro_map.py] from atom names of the
    format to chemical symbols, and [make_formula] of
    [chemlab/core/molecule.py]. *)
Variable gro_to_cl : gmap text text.
Variable make_formula : list text -> text.

(** One entry of [datalist]. *)
Definition record : Type := (Z * text * text * float * float * float)%type.

(** The fields of [dataarr], by the names of its [dtype]. *)
Definition f0 (r : record) : Z := r.1.1.1.1.1.
Definition f1 (r : record) : text := r.1.1.1.1.2.
Definition f2 (r : record) : text := r.1.1.1.2.
Definition f3 (r : record) : float := r.1.1.2.
Definition f4 (r : record) : float := r.1.2.
Definition f5 (r : record) : float := r.2.

Definition zero : float := Fin false 0 0.

(** The body of the [if] in the loop of [parse_gro_lines]: the fields of
    an atom line. *)
Definition parse_atom (l : text) : result record :=
  let line_length := length l in
  let* molidx := Int.int (Str.slice 0 5 l) in
  let moltyp := Str.strip (Str.slice 5 10 l) in
  let attyp := Str.strip (Str.slice 10 15 l) in
  let* atidx := Int.int (Str.slice 15 20 l) in
  let* rx := of_text (Str.slice 20 28 l) in
  let* ry := of_text (Str.slice 28 36 l) in
  let* rz := of_text (Str.slice 36 44 l) in
  let* hasvel :=
    if line_length =? 69
    then
      let* vx := of_text (Str.slice 44 52 l) in
      let* vy := of_text (Str.slice 52 60 l) in
      let* vz := of_text (Str.slice 60 68 l) in
      Ok true
    else Ok false in
  Ok (molidx, moltyp, attyp, rx, ry, rz).

(** The [else] branch: the box size. *)
Definition parse_box (fields : list text) : result matrix :=
  let* abc := map_result of_text fields in
  match abc with
  | [a; b; c] => Ok ((a, zero, zero), (zero, b, zero), (zero, zero, c))
  | _ => Raise ValueError
  end.

(** The loop [for l in lines] of [parse_gro_lines].  The result is
    [datalist] and [box_vectors], which stays unbound ([None]) when the
    loop ends without reaching the [else] branch. *)
Fixpoint read_lines (lines : list text) (datalist : list record)
  : result (list record * option matrix) :=
  match lines with
  | [] => Ok (datalist, None)
  | l :: lines' =>
      let fields := Str.split l in
      let line_length := length l in
      if (line_length =? 45) || (line_length =? 69)
      then
        let* r := parse_atom l in
        read_lines lines' (datalist ++ [r])
      else
        let* box := parse_box fields in
        Ok (datalist, Some box)
  end.

(** The loop that fills [mol_formula]. *)
Fixpoint formulas (type_array : list text) (end_ : nat) (idx : list nat)
  : list text :=
  match idx with
  | [] => []
  | s :: rest =>
      let e := match rest with e :: _ => e | [] => end_ end in
      make_formula (Np.slice s e type_array) :: formulas type_array end_ rest
  end.

(** [parse_gro_lines] after the loop: from [datalist] to the system. *)
Definition assemble (datalist : list record) (box : option matrix)
  : result System :=
  let '(mol_id, mol_indices) := Np.unique (f0 <$> datalist) in
  let r_array := (fun r => (f3 r, f4 r, f5 r)) <$> datalist in
  let grotype_array := f2 <$> datalist in
  let* names := Np.take_at (f1 <$> datalist) mol_indices in
  let mol_export := (fun g => {[ "groname"%string := g ]} : dict) <$> names in
  let atom_export_array :=
    (fun g => {[ "grotype"%string := g ]} : dict) <$> grotype_array in
  let type_array :=
    (fun g => default (txt "Unknown") (gro_to_cl !! g)) <$> grotype_array in
  let end_ := length r_array in
  let mol_formula := formulas type_array end_ mol_indices in
  match box with
  | None => Raise (UnboundLocalError "box_vectors")
  | Some box_vectors =>
      Ok (from_arrays r_array mol_indices type_array atom_export_array
            mol_export mol_formula box_vectors)
  end.

(** [parse_gro_lines(lines)].  The list is the caller's object and
    [pop] changes it, so the list after the call is returned with the
    outcome. *)
Definition parse_gro_lines (lines : list text) : list text * result System :=
  match lines with
  | [] => (lines, Raise IndexError)
  | title :: lines1 =>
      match lines1 with
      | [] => (lines1, Raise IndexError)
      | count :: lines2 =>
          (lines2,
           let* natoms := Int.int count in
           let* parsed := read_lines lines2 [] in
           assemble parsed.1 parsed.2)
      end
  end.

End Reader.

(** ** The writer *)

Definition need_groname : string :=
  "Gromacs exporter need the residue name as groname".
Definition need_grotype : string :=
  "Gromacs exporter needs the atom type as grotype".
Definition need_box : string :=
  "Gromacs exporter need box_vector information
Set System.boxsize attribute or System.box_vectors".

(** [try: d[key] except KeyError: raise Exception(msg)] *)
Definition export_entry (d : dict) (key msg : string) : result text :=
  match d !! key with
  | Some v => Ok v
  | None => Raise (Exception msg)
  end.

(** ['{:>5}{:<5}{:>5}{:>5}{:>8.3f}{:>8.3f}{:>8.3f}'.format(...)] *)
Definition format_atom (res_n : N) (res_name at_name : text) (serial : N)
    (x y z : float) : text :=
  Str.rjust 5 (Int.str res_n) ++ Str.ljust 5 res_name ++ Str.rjust 5 at_name
  ++ Str.rjust 5 (Int.str serial)
  ++ Str.rjust 8 (format_f 3 x) ++ Str.rjust 8 (format_f 3 y)
  ++ Str.rjust 8 (format_f 3 z).

(** ['{:>10.5f}{:>10.5f}{:>10.5f}'.format(a, b, c)] *)
Definition format_box (a b c : float) : text :=
  Str.rjust 10 (format_f 5 a) ++ Str.rjust 10 (format_f 5 b)
  ++ Str.rjust 10 (format_f 5 c).

(** The state of the two loops of [write_gro]: the running atom count
    [at_n] and the lines so far. *)
Definition wstate : Type := (N * list text)%type.

(** The body of the inner loop, for atom [j] of molecule [i]. *)
Definition write_atom (sys : System) (i : nat) (res_n : N) (res_name : text)
    (j : nat) (st : wstate) : result wstate :=
  let* offset := getitem (mol_indices sys) i in
  let* entry := getitem (atom_export_array sys) (offset + j) in
  let* at_name := export_entry entry "grotype" need_grotype in
  let at_n := (st.1 + 1)%N in
  let* r := getitem (r_array sys) (offset + j) in
  let '(x, y, z) := r in
  Ok (at_n,
      st.2 ++ [format_atom res_n res_name at_name (at_n mod 99999)%N x y z]).

(** The body of the outer loop, for molecule [i]. *)
Definition write_molecule (sys : System) (i : nat) (st : wstate)
  : result wstate :=
  let res_n := N.of_nat (i + 1) in
  let* entry := getitem (mol_export sys) i in
  let* res_name := export_entry entry "groname" need_groname in
  let* n := getitem (mol_n_atoms sys) i in
  for_each (write_atom sys i res_n res_name) (seq 0 n) st.

(** [write_gro] up to the point where the file is opened: the lines,
    without their newlines.  [sys.box_vectors == None] is the test that
    the box is not set: on an array it is false, as with the numpy of
    the Python 2 this code is written for. *)
Definition gro_lines (sys : System) : result (list text) :=
  let lines :=
    [txt "Generated by chemlab";
     Str.rjust 5 (Int.str (N.of_nat (n_atoms sys)))] in
  let* st := for_each (write_molecule sys) (seq 0 (n_mol sys)) (0%N, lines) in
  match box_vectors sys with
  | None => Raise (Exception need_box)
  | Some b =>
      Ok (st.2 ++ [format_box b.1.1.1.1 b.1.2.1.2 b.2.2])
  end.

(** The files of the disk, by name. *)
Abbreviation disk := (gmap string text).

(** [write_gro(sys, filename)]: the file is opened, and so created or
    truncated, only once every line has been built. *)
Definition write_gro (sys : System) (filename : string) (fs : disk)
  : disk * result unit :=
  match gro_lines sys with
  | Raise e => (fs, Raise e)
  | Ok lines =>
      (<[ filename := concat ((fun l => l ++ [Str.newline]) <$> lines) ]> fs,
       Ok tt)
  end.

(** ** The handler *)

Module GromacsIO.

Section Handler.

Variable gro_to_cl : gmap text text.
Variable make_formula : list text -> text.

(** [open(filename)] for reading. *)
Definition open_read (fs : disk) (filename : string) : result text :=
  match fs !! filename with
  | Some content => Ok content
  | None => Raise (IOError filename)
  end.

(** [GromacsIO(filename).read(feature)]; any feature other than
    ['system'] falls through and returns [None]. *)
Definition read (filename : string) (feature : string) (fs : disk)
  : result (option System) :=
  if bool_decide (feature = "system"%string)
  then
    let* content := open_read fs filename in
    let lines := Str.readlines content in
    let* sys := (parse_gro_lines gro_to_cl make_formula lines).2 in
    Ok (Some sys)
  else Ok None.

(** [GromacsIO(filename).write(feature, sys)] *)
Definition write (filename : string) (feature : string) (sys : System)
    (fs : disk) : disk * result unit :=
  if bool_decide (feature = "system"%string)
  then write_gro sys filename fs
  else (fs, Ok tt).

End Handler.

End GromacsIO.

(** * Vocabulary of the properties *)

(** The seven fields of the layout without velocities, as the format
    describes them. *)
Definition position_fields (l : text) : result record :=
  let* molidx := Int.int (Str.slice 0 5 l) in
  let* atidx := Int.int (Str.slice 15 20 l) in
  let* rx := of_text (Str.slice 20 28 l) in
  let* ry := of_text (Str.slice 28 36 l) in
  let* rz := of_text (Str.slice 36 44 l) in
  Ok (molidx, Str.strip (Str.slice 5 10 l), Str.strip (Str.slice 10 15 l),
      rx, ry, rz).

(** The three velocity fields of the longer layout. *)
Definition velocity_fields (l : text) : result vec3 :=
  let* vx := of_text (Str.slice 44 52 l) in
  let* vy := of_text (Str.slice 52 60 l) in
  let* vz := of_text (Str.slice 60 68 l) in
  Ok (vx, vy, vz).

Definition atom_length (l : text) : Prop := length l = 45 \/ length l = 69.

(** The claim that the parsed record carries the velocities of a
    69-character line and none for a 45-character line: the velocities
    can be read off the record. *)
Definition velocities_in_record : Prop :=
  exists vel : record -> option vec3,
    forall (l : text) (r : record),
      parse_atom l = Ok r ->
      (length l = 69 -> exists v, velocity_fields l = Ok v /\ vel r = Some v) /\
      (length l = 45 -> vel r = None).

Definition line_with_velocity : text :=
  txt "    1SOL     OW    1   0.126   1.624   1.679  0.1227 -0.0580  0.0434
".

Definition line_without_velocity : text :=
  txt "    1SOL     OW    1   0.126   1.624   1.679
".

(** ** Molecule offsets *)

(** The offsets at which the molecule index changes from one record to
    the next, the first record always starting a group. *)
Fixpoint group_starts_from (prev : option Z) (i : nat) (ar : list Z) : list nat :=
  match ar with
  | [] => []
  | v :: ar' =>
      if bool_decide (prev = Some v)
      then group_starts_from (Some v) (S i) ar'
      else i :: group_starts_from (Some v) (S i) ar'
  end.

Definition group_starts (ar : list Z) : list nat := group_starts_from None 0 ar.

Fixpoint ascending (ar : list Z) : bool :=
  match ar with
  | x :: ((y :: _) as ar') => (x <=? y)%Z && ascending ar'
  | _ => true
  end.

Fixpoint increasing (ar : list Z) : bool :=
  match ar with
  | x :: ((y :: _) as ar') => (x <? y)%Z && increasing ar'
  | _ => true
  end.

Definition by_value (x y : Z * nat) : Prop := (x.1 <= y.1)%Z.

(** A pair of a value and an index where the array has that value. *)
Definition at_index (ar : list Z) (p : Z * nat) : Prop := ar !! p.2 = Some p.1.

Definition bound (prev : option Z) : list Z :=
  match prev with Some p => [p] | None => [] end.

(** ** What the writer emits *)

(** The first two lines of the file. *)
Definition header (sys : System) : list text :=
  [txt "Generated by chemlab"; Str.rjust 5 (Int.str (N.of_nat (n_atoms sys)))].

(** The atoms of molecule [i], as the inner loop visits them. *)
Definition atoms_of (sys : System) (i : nat) : list nat :=
  match mol_indices sys !! i, mol_n_atoms sys !! i with
  | Some o, Some n => seq o n
  | _, _ => []
  end.

(** The atoms the two loops visit while they go through the first [m]
    molecules, in order. *)
Definition visited (sys : System) (m : nat) : list nat :=
  flat_map (atoms_of sys) (seq 0 m).

Definition has_groname (sys : System) (i : nat) : Prop :=
  exists entry res_name,
    mol_export sys !! i = Some entry /\ entry !! "groname"%string = Some res_name.

Definition has_grotype (sys : System) (k : nat) : Prop :=
  exists entry at_name,
    atom_export_array sys !! k = Some entry /\
    entry !! "grotype"%string = Some at_name.

(** [line] is the line written for atom [k] when it is the [p]-th atom
    written, counting from 0. *)
Definition atom_line_of (sys : System) (p k : nat) (line : text) : Prop :=
  exists i o n mentry res_name aentry at_name x y z,
    mol_indices sys !! i = Some o /\ mol_n_atoms sys !! i = Some n /\
    o <= k < o + n /\ i < n_mol sys /\
    mol_export sys !! i = Some mentry /\
    mentry !! "groname"%string = Some res_name /\
    atom_export_array sys !! k = Some aentry /\
    aentry !! "grotype"%string = Some at_name /\
    r_array sys !! k = Some (x, y, z) /\
    line = format_atom (N.of_nat (i + 1)) res_name at_name
             (N.of_nat (p + 1) mod 99999) x y z.

(** The state of the loops once the atoms [ks] have been written. *)
Definition written (sys : System) (ks : list nat) (st : wstate) : Prop :=
  exists L,
    st.2 = header sys ++ L /\ st.1 = N.of_nat (length L) /\
    length L = length ks /\
    forall p k line,
      ks !! p = Some k -> L !! p = Some line -> atom_line_of sys p k line.

(** A molecule without [groname], an atom without [grotype]. *)
Definition lacks_groname (sys : System) : Prop :=
  exists i entry,
    mol_export sys !! i = Some entry /\ entry !! "groname"%string = None.

Definition lacks_grotype (sys : System) : Prop :=
  exists k entry,
    atom_export_array sys !! k = Some entry /\ entry !! "grotype"%string = None.

(** The exceptions of the writer that name what is missing. *)
Definition names_missing (sys : System) (e : exn) : Prop :=
  (e = Exception need_groname /\ lacks_groname sys) \/
  (e = Exception need_grotype /\ lacks_grotype sys) \/
  (e = Exception need_box /\ box_vectors sys = None).

(** An index of the loops falls outside one of the arrays. *)
Definition out_of_range (sys : System) : Prop :=
  exists i, i < n_mol sys /\
    (mol_export sys !! i = None \/ mol_n_atoms sys !! i = None \/
     exists n, mol_n_atoms sys !! i = Some n /\ 0 < n /\
       (mol_indices sys !! i = None \/
        exists o j, mol_indices sys !! i = Some o /\ j < n /\
          (atom_export_array sys !! (o + j) = None \/
           r_array sys !! (o + j) = None))).

Definition failure (sys : System) (e : exn) : Prop :=
  names_missing sys e \/ (e = IndexError /\ out_of_range sys).

(** ** Systems *)

(** The arrays of a system agree with its counts, and its molecules
    are runs of consecutive atoms that cover the atoms in order. *)
Record well_formed (sys : System) : Prop := {
  wf_mol_export : length (mol_export sys) = n_mol sys;
  wf_mol_indices : length (mol_indices sys) = n_mol sys;
  wf_mol_n_atoms : length (mol_n_atoms sys) = n_mol sys;
  wf_atom_export : length (atom_export_array sys) = n_atoms sys;
  wf_r_array : length (r_array sys) = n_atoms sys;
  wf_visited : visited sys (n_mol sys) = seq 0 (n_atoms sys)
}.

(** ** Text *)

Definition no_space (s : text) : Prop := Forall (fun c => Str.is_space c = false) s.

Definition all_digits (s : text) : Prop := Forall (fun c => Int.is_digit c = true) s.

Definition no_newline (s : text) : Prop :=
  Forall (fun c => Ascii.eqb c Str.newline = false) s.

Definition same_rendering (p : nat) (x x' : float) : Prop :=
  format_f p x' = format_f p x.

(** Every value of the system fits the field it is written in: fewer
    than 100000 molecules, names of at most five characters without a
    line break, coordinates of at most eight characters with three
    decimals, and box lengths of at most ten characters with five
    decimals, the second and third leaving room for a space. *)
Definition fits (sys : System) : Prop :=
  (N.of_nat (n_mol sys) < 100000)%N /\
  (forall i entry, mol_export sys !! i = Some entry ->
     exists name, entry !! "groname"%string = Some name /\
                  length name <= 5 /\ no_newline name) /\
  (forall k entry, atom_export_array sys !! k = Some entry ->
     exists name, entry !! "grotype"%string = Some name /\
                  length name <= 5 /\ no_newline name) /\
  (forall k x y z, r_array sys !! k = Some (x, y, z) ->
     length (format_f 3 x) <= 8 /\ length (format_f 3 y) <= 8 /\
     length (format_f 3 z) <= 8) /\
  (forall b, box_vectors sys = Some b ->
     length (format_f 5 b.1.1.1.1) <= 10 /\
     length (format_f 5 b.1.2.1.2) < 10 /\
     length (format_f 5 b.2.2) < 10).

(** Two positions that are written the same with three decimals. *)
Definition same_position (r r' : vec3) : Prop :=
  same_rendering 3 r.1.1 r'.1.1 /\ same_rendering 3 r.1.2 r'.1.2 /\
  same_rendering 3 r.2 r'.2.

(** * Sample data *)

Definition sample_table : gmap text text :=
  {[ txt "OW" := txt "O"; txt "HW1" := txt "H"; txt "HW2" := txt "H" ]}.

Definition sample_formula (symbols : list text) : text := concat symbols.

Definition one : float := Fin false 4503599627370496 (-52).

Definition unit_box : matrix := ((one, zero, zero), (zero, one, zero), (zero, zero, one)).

Definition box_line : text := txt "   1.00000   1.00000   1.00000
".

(** A water molecule, as a file and as a system. *)
Definition water_atoms : list text :=
  [txt "    1SOL     OW    1   0.000   0.000   0.000
";
   txt "    1SOL    HW1    2   0.100   0.000   0.000
";
   txt "    1SOL    HW2    3  -0.033   0.094   0.000
"].

Definition water_lines : list text :=
  [txt "Title
"; txt "3
"] ++ water_atoms ++ [box_line].

Definition water : System :=
  {| r_array :=
       [(zero, zero, zero);
        (Fin false 7205759403792794 (-56), zero, zero);
        (Fin true 4755801206503244 (-57), Fin false 6773413839565226 (-56), zero)];
     mol_indices := [0];
     type_array := [txt "O"; txt "H"; txt "H"];
     atom_export_array :=
       [{[ "grotype"%string := txt "OW" ]}; {[ "grotype"%string := txt "HW1" ]};
        {[ "grotype"%string := txt "HW2" ]}];
     mol_export := [{[ "groname"%string := txt "SOL" ]}];
     mol_formula := [txt "OHH"];
     box_vectors := Some unit_box;
     n_mol := 1;
     n_atoms := 3;
     mol_n_atoms := [3] |}.

(** What [write_gro] writes for it. *)
Definition water_written : list text :=
  [txt "Generated by chemlab"; txt "    3";
   txt "    1SOL     OW    1   0.000   0.000   0.000";
   txt "    1SOL    HW1    2   0.100   0.000   0.000";
   txt "    1SOL    HW2    3  -0.033   0.094   0.000";
   txt "   1.00000   1.00000   1.00000"].

(** The same molecule without its residue name, and with a residue
    name that is too long for its field. *)
Definition unnamed_water : System :=
  {| r_array := r_array water; mol_indices := [0];
     type_array := type_array water;
     atom_export_array := atom_export_array water;
     mol_export := [∅];
     mol_formula := mol_formula water; box_vectors := Some unit_box;
     n_mol := 1; n_atoms := 3; mol_n_atoms := [3] |}.

Definition long_name_water : System :=
  {| r_array := r_array water; mol_indices := [0];
     type_array := type_array water;
     atom_export_array := atom_export_array water;
     mol_export := [{[ "groname"%string := txt "WATER1" ]}];
     mol_formula := mol_formula water; box_vectors := Some unit_box;
     n_mol := 1; n_atoms := 3; mol_n_atoms := [3] |}.

Definition long_name_written : list text :=
  [txt "Generated by chemlab"; txt "    3";
   txt "    1WATER1   OW    1   0.000   0.000   0.000";
   txt "    1WATER1  HW1    2   0.100   0.000   0.000";
   txt "    1WATER1  HW2    3  -0.033   0.094   0.000";
   txt "   1.00000   1.00000   1.00000"].

(** One molecule of [n] atoms of the same kind. *)
Definition uniform_system (n : nat) : System :=
  {| r_array := replicate n (zero, zero, zero);
     mol_indices := [0];
     type_array := replicate n (txt "O");
     atom_export_array := replicate n {[ "grotype"%string := txt "OW" ]};
     mol_export := [{[ "groname"%string := txt "SOL" ]}];
     mol_formula := [txt "O"];
     box_vectors := Some unit_box;
     n_mol := 1;
     n_atoms := n;
     mol_n_atoms := [n] |}.

(** Records with the molecule indices of the grouping example, a file
    where a molecule index comes back after another one, and a file
    where the molecule indices go down. *)
Definition record_of (molidx : Z) : record :=
  (molidx, txt "SOL", txt "OW", zero, zero, zero).

Definition grouped_records : list record :=
  record_of <$> [1; 1; 2; 2; 2; 3]%Z.

Definition empty_system : System := mkSystem [] [] [] [] [] [] None 0 0 [].

Definition system_of (r : result System) : System :=
  match r with Ok sys => sys | Raise _ => empty_system end.

Definition grouped_system : System :=
  system_of (assemble sample_table sample_formula grouped_records (Some unit_box)).

Definition reused_index_lines : list text :=
  [txt "Title
"; txt "5
";
   txt "    1SOL     OW    1   0.000   0.000   0.000
";
   txt "    1SOL    HW1    2   0.100   0.000   0.000
";
   txt "    2SOL     OW    3   0.000   0.000   0.000
";
   txt "    2SOL    HW1    4   0.100   0.000   0.000
";
   txt "    1SOL    HW2    5  -0.033   0.094   0.000
";
   box_line].

Definition reversed_index_lines : list text :=
  [txt "Title
"; txt "4
";
   txt "    2SOL     OW    1   0.000   0.000   0.000
";
   txt "    2SOL    HW1    2   0.100   0.000   0.000
";
   txt "    1SOL     OW    3   0.000   0.000   0.000
";
   txt "    1SOL    HW1    4   0.100   0.000   0.000
";
   box_line].

Definition velocity_record : record :=
  match parse_atom line_with_velocity with
  | Ok r => r
  | Raise _ => record_of 0
  end.

(** ** More vocabulary *)

(** The order of the stable sort: by value, then by position. *)
Definition lex (x y : Z * nat) : Prop :=
  (x.1 < y.1)%Z \/ (x.1 = y.1 /\ x.2 < y.2).

(** The system with its box set. *)
Definition with_box (sys : System) (b : matrix) : System :=
  {| r_array := r_array sys;
     mol_indices := mol_indices sys;
     type_array := type_array sys;
     atom_export_array := atom_export_array sys;
     mol_export := mol_export sys;
     mol_formula := mol_formula sys;
     box_vectors := Some b;
     n_mol := n_mol sys;
     n_atoms := n_atoms sys;
     mol_n_atoms := mol_n_atoms sys |}.

(** The water molecule without a box, and a box line with two lengths. *)
Definition boxless_water : System :=
  {| r_array := r_array water; mol_indices := [0];
     type_array := type_array water;
     atom_export_array := atom_export_array water;
     mol_export := mol_export water;
     mol_formula := mol_formula water; box_vectors := None;
     n_mol := 1; n_atoms := 3; mol_n_atoms := [3] |}.

Definition short_box_line : text := txt "   1.00000   1.00000
".

(** [r] is the record read from the line written for atom [k]: the
    number of its molecule, the two names as they come out of their
    padded fields, and a position that is written the same. *)
Definition record_of_atom (sys : System) (k : nat) (r : record) : Prop :=
  exists i o n mentry res_name aentry at_name pos,
    mol_indices sys !! i = Some o /\ mol_n_atoms sys !! i = Some n /\
    o <= k < o + n /\ i < n_mol sys /\
    mol_export sys !! i = Some mentry /\
    mentry !! "groname"%string = Some res_name /\
    atom_export_array sys !! k = Some aentry /\
    aentry !! "grotype"%string = Some at_name /\
    r_array sys !! k = Some pos /\
    f0 r = Z.of_nat (i + 1) /\
    f1 r = Str.strip (Str.ljust 5 res_name) /\
    f2 r = Str.strip (Str.rjust 5 at_name) /\
    same_position pos (f3 r, f4 r, f5 r).

(** * Properties *)

(** ** The error monad *)

Lemma bind_Ok {A B} (r : result A) (k : A -> result B) (b : B) :
  bind r k = Ok b <-> exists a, r = Ok a /\ k a = Ok b.
Proof.
  destruct r as [a|e]; simpl; split.
  - eauto.
  - intros (a' & [= <-] & H). exact H.
  - discriminate.
  - intros (a' & [=] & _).
Qed.

Lemma map_result_app {A B} (f : A -> result B) (xs ys : list A) :
  map_result f (xs ++ ys) =
  let* us := map_result f xs in
  let* vs := map_result f ys in
  Ok (us ++ vs).
Proof.
  induction xs as [|x xs IH]; simpl.
  - destruct (map_result f ys); reflexivity.
  - destruct (f x) as [y|e]; simpl; [|reflexivity].
    rewrite IH. destruct (map_result f xs) as [us|e]; simpl; [|reflexivity].
    destruct (map_result f ys); reflexivity.
Qed.

Lemma map_result_total {A B} (f : A -> result B) (g : A -> B) (xs : list A) :
  Forall (fun x => f x = Ok (g x)) xs -> map_result f xs = Ok (g <$> xs).
Proof.
  induction 1 as [|x xs Hx _ IH]; simpl; [reflexivity|].
  rewrite Hx, IH. reflexivity.
Qed.

(** Case analysis on the next call that can raise. *)
Ltac step_bind :=
  match goal with
  | |- context [bind ?r _] =>
      lazymatch r with
      | bind _ _ => fail
      | Ok _ => fail
      | Raise _ => fail
      | _ => destruct r; simpl; try reflexivity
      end
  end.

(** ** The header lines *)

(** C9. [parse_gro_lines] changes the list it is given: after the call
    the list has lost its first two elements, the title and the atom
    count, whether the rest of the call succeeds or raises, and the
    other elements are the same, in the same order. *)
Theorem parse_gro_lines_pops_header gro_to_cl make_formula (lines : list text) :
  (parse_gro_lines gro_to_cl make_formula lines).1 = drop 2 lines.
Proof.
  destruct lines as [|title [|count rest]]; reflexivity.
Qed.

(** ** Lines are told apart by their length *)

Section Lines.

Variable gro_to_cl : gmap text text.
Variable make_formula : list text -> text.

Lemma parse_atom_short (l : text) :
  length l <> 69 -> parse_atom l = position_fields l.
Proof.
  intros H. unfold parse_atom, position_fields.
  apply Nat.eqb_neq in H. rewrite H. simpl.
  repeat step_bind; reflexivity.
Qed.

Lemma parse_atom_long (l : text) :
  length l = 69 ->
  parse_atom l =
  let* r := position_fields l in
  let* v := velocity_fields l in
  Ok r.
Proof.
  intros H. unfold parse_atom, position_fields, velocity_fields.
  rewrite H. simpl.
  repeat step_bind; reflexivity.
Qed.

Lemma read_lines_atoms (atoms rest : list text) (acc : list record) :
  Forall atom_length atoms ->
  read_lines (atoms ++ rest) acc =
  let* rs := map_result parse_atom atoms in
  read_lines rest (acc ++ rs).
Proof.
  intros H. revert acc. induction H as [|l atoms Hl _ IH]; intros acc; simpl.
  - rewrite app_nil_r. reflexivity.
  - assert ((length l =? 45) || (length l =? 69) = true) as ->.
    { destruct Hl as [-> | ->]; reflexivity. }
    destruct (parse_atom l) as [r|e]; simpl; [|reflexivity].
    rewrite IH. destruct (map_result parse_atom atoms) as [rs|e]; simpl.
    + rewrite <- app_assoc. reflexivity.
    + reflexivity.
Qed.

Lemma read_lines_box (b : text) (post : list text) (acc : list record) :
  length b <> 45 -> length b <> 69 ->
  read_lines (b :: post) acc =
  let* box := parse_box (Str.split b) in
  Ok (acc, Some box).
Proof.
  intros H45 H69. simpl.
  apply Nat.eqb_neq in H45, H69. rewrite H45, H69. reflexivity.
Qed.

(** C3. The lines after the header are told apart by their length
    alone.  A line of 45 characters is read as the seven position
    fields; a line of 69 characters as those and the three velocity
    fields; the first line of any other length ends the atom records
    and is read as the box line, and whatever follows it plays no part
    in the result. *)
Theorem read_lines_by_length (atoms : list text) (b : text)
    (post : list text) (acc : list record) :
  Forall atom_length atoms ->
  length b <> 45 -> length b <> 69 ->
  read_lines (atoms ++ b :: post) acc =
    (let* rs := map_result parse_atom atoms in
     let* box := parse_box (Str.split b) in
     Ok (acc ++ rs, Some box))
  /\ Forall (fun l =>
        (length l = 45 -> parse_atom l = position_fields l) /\
        (length l = 69 ->
         parse_atom l =
         let* r := position_fields l in
         let* v := velocity_fields l in
         Ok r)) atoms.
Proof.
  intros Hatoms H45 H69. split.
  - rewrite read_lines_atoms by assumption.
    destruct (map_result parse_atom atoms) as [rs|e]; simpl; [|reflexivity].
    apply read_lines_box; assumption.
  - apply Forall_forall. intros l _. split; intros Hl.
    + apply parse_atom_short. lia.
    + apply parse_atom_long. assumption.
Qed.

End Lines.

(** ** numpy's [unique] stays inside the array *)

Lemma insert_Forall (P : Z * nat -> Prop) x l :
  P x -> Forall P l -> Forall P (Np.insert x l).
Proof.
  intros Hx Hl. induction Hl as [|y l Hy Hl IH]; simpl.
  - constructor; [assumption|constructor].
  - destruct (x.1 <=? y.1)%Z; repeat constructor; assumption.
Qed.

Lemma sort_indexed_Forall (ar : list Z) :
  Forall (fun p => p.2 < length ar) (Np.sort_indexed ar).
Proof.
  unfold Np.sort_indexed.
  assert (Forall (fun p : Z * nat => p.2 < length ar)
            (zip ar (seq 0 (length ar)))) as H.
  { apply Forall_forall. intros [v i] Hp. apply elem_of_zip_r in Hp.
    apply elem_of_seq in Hp. simpl. lia. }
  induction H as [|p l Hp _ IH]; simpl; [constructor|].
  apply insert_Forall; assumption.
Qed.

Lemma run_heads_Forall (P : Z * nat -> Prop) prev aux :
  Forall P aux -> Forall P (Np.run_heads prev aux).
Proof.
  intros H. revert prev. induction H as [|[v i] aux Hp _ IH]; intros prev; simpl.
  - constructor.
  - destruct (bool_decide (prev = Some v)); [apply IH|].
    constructor; [assumption|apply IH].
Qed.

Lemma unique_in_range (ar : list Z) :
  Forall (fun i => i < length ar) (Np.unique ar).2.
Proof.
  unfold Np.unique. simpl. apply Forall_fmap.
  apply run_heads_Forall, sort_indexed_Forall.
Qed.

Lemma take_at_ok {A} (a : list A) (idx : list nat) :
  Forall (fun i => i < length a) idx ->
  exists xs, Np.take_at a idx = Ok xs /\ length xs = length idx.
Proof.
  unfold Np.take_at. induction 1 as [|i idx Hi _ (xs & IH & Hlen)]; simpl.
  - exists []. split; reflexivity.
  - unfold getitem at 1. destruct (lookup_lt_is_Some_2 a i Hi) as [x ->].
    simpl. rewrite IH. simpl. exists (x :: xs). simpl. split; congruence.
Qed.

Lemma formulas_length mf ta end_ idx :
  length (formulas mf ta end_ idx) = length idx.
Proof. induction idx as [|s rest IH]; simpl; congruence. Qed.

(** What [parse_gro_lines] builds from [datalist] once the box is
    known: the call does not raise. *)
Lemma assemble_ok gro_to_cl make_formula (datalist : list record) (box : matrix) :
  exists names,
    Np.take_at (f1 <$> datalist) (Np.unique (f0 <$> datalist)).2 = Ok names /\
    length names = length (Np.unique (f0 <$> datalist)).2 /\
    assemble gro_to_cl make_formula datalist (Some box) =
    Ok (from_arrays
          ((fun r => (f3 r, f4 r, f5 r)) <$> datalist)
          (Np.unique (f0 <$> datalist)).2
          ((fun g => default (txt "Unknown") (gro_to_cl !! g)) <$> (f2 <$> datalist))
          ((fun g => {[ "grotype"%string := g ]} : dict) <$> (f2 <$> datalist))
          ((fun g => {[ "groname"%string := g ]} : dict) <$> names)
          (formulas make_formula
             ((fun g => default (txt "Unknown") (gro_to_cl !! g)) <$> (f2 <$> datalist))
             (length datalist) (Np.unique (f0 <$> datalist)).2)
          box).
Proof.
  destruct (take_at_ok (f1 <$> datalist) (Np.unique (f0 <$> datalist)).2)
    as (names & Hnames & Hlen).
  { pose proof (unique_in_range (f0 <$> datalist)) as H.
    rewrite !length_fmap in *. exact H. }
  exists names. split; [exact Hnames|]. split; [exact Hlen|].
  unfold assemble.
  destruct (Np.unique (f0 <$> datalist)) as [mol_id mol_indices] eqn:Hu.
  simpl in *. rewrite Hnames. simpl. rewrite length_fmap. reflexivity.
Qed.

Lemma assemble_unbound gro_to_cl make_formula (datalist : list record) :
  assemble gro_to_cl make_formula datalist None =
  Raise (UnboundLocalError "box_vectors").
Proof.
  destruct (take_at_ok (f1 <$> datalist) (Np.unique (f0 <$> datalist)).2)
    as (names & Hnames & Hlen).
  { pose proof (unique_in_range (f0 <$> datalist)) as H.
    rewrite !length_fmap in *. exact H. }
  unfold assemble.
  destruct (Np.unique (f0 <$> datalist)) as [mol_id mol_indices] eqn:Hu.
  simpl in *. rewrite Hnames. reflexivity.
Qed.

Section Reading.

Variable gro_to_cl : gmap text text.
Variable make_formula : list text -> text.

(** C10. Without a box line the reader does not return a system: when
    every line after the header has 45 or 69 characters, the call
    raises.  If the atom count and every atom line parse, the exception
    is the unbound local [box_vectors], raised where the system is
    put together. *)
Theorem parse_gro_lines_no_box (lines : list text) :
  Forall atom_length (drop 2 lines) ->
  (exists e, (parse_gro_lines gro_to_cl make_formula lines).2 = Raise e)
  /\ (forall title count body n rs,
        lines = title :: count :: body ->
        Int.int count = Ok n ->
        map_result parse_atom body = Ok rs ->
        (parse_gro_lines gro_to_cl make_formula lines).2 =
        Raise (UnboundLocalError "box_vectors")).
Proof.
  intros Hall.
  assert (forall title count body, lines = title :: count :: body ->
            (parse_gro_lines gro_to_cl make_formula lines).2 =
            let* natoms := Int.int count in
            let* rs := map_result parse_atom body in
            Raise (UnboundLocalError "box_vectors")) as Hshape.
  { intros title count body ->. simpl in *.
    destruct (Int.int count) as [n|e]; simpl; [|reflexivity].
    rewrite <- (app_nil_r body) at 1.
    rewrite read_lines_atoms by assumption.
    destruct (map_result parse_atom body) as [rs|e]; simpl; [|reflexivity].
    apply assemble_unbound. }
  split.
  - destruct lines as [|title [|count body]].
    + exists IndexError. reflexivity.
    + exists IndexError. reflexivity.
    + rewrite (Hshape _ _ _ eq_refl).
      destruct (Int.int count); simpl; [|eauto].
      destruct (map_result parse_atom body); simpl; eauto.
  - intros title count body n rs Hl Hn Hrs.
    rewrite (Hshape _ _ _ Hl), Hn. simpl. rewrite Hrs. reflexivity.
Qed.

(** C8. A file whose body is the box line alone is read without
    error: when the atom count parses, the third line is not 45 or 69
    characters long and splits into three numbers, the reader returns
    the system with no atom and no molecule, and with the three numbers
    on the diagonal of its box. *)
Theorem parse_gro_lines_box_only (title count b : text) (n : Z) (x y z : float) :
  Int.int count = Ok n ->
  length b <> 45 -> length b <> 69 ->
  map_result of_text (Str.split b) = Ok [x; y; z] ->
  (parse_gro_lines gro_to_cl make_formula [title; count; b]).2 =
  Ok {| r_array := []; mol_indices := []; type_array := [];
        atom_export_array := []; mol_export := []; mol_formula := [];
        box_vectors := Some ((x, zero, zero), (zero, y, zero), (zero, zero, z));
        n_mol := 0; n_atoms := 0; mol_n_atoms := [] |}.
Proof.
  intros Hn H45 H69 Hbox.
  unfold parse_gro_lines. cbn [snd]. rewrite Hn. cbn [bind].
  rewrite read_lines_box by assumption.
  unfold parse_box. rewrite Hbox. reflexivity.
Qed.

(** C7. Resolving the symbol of an atom label is a lookup in the
    table that cannot raise: once the lines are parsed and the box is
    known, putting the system together always succeeds; every atom
    gets the symbol the table has for exactly its label, or
    ["Unknown"] when the table has none; and every molecule gets a
    formula. *)
Theorem symbols_never_raise (datalist : list record) (box : matrix) :
  exists sys,
    assemble gro_to_cl make_formula datalist (Some box) = Ok sys /\
    type_array sys =
      (fun r => match gro_to_cl !! f2 r with
                | Some symbol => symbol
                | None => txt "Unknown"
                end) <$> datalist /\
    length (mol_formula sys) = n_mol sys /\
    atom_export_array sys =
      (fun r => {[ "grotype"%string := f2 r ]} : dict) <$> datalist.
Proof.
  destruct (assemble_ok gro_to_cl make_formula datalist box)
    as (names & Hnames & Hlen & ->).
  eexists. split; [reflexivity|]. simpl.
  rewrite formulas_length, <- !list_fmap_compose. repeat split.
Qed.

End Reading.

(** ** Velocities *)

Lemma slice_prefix (a b n : nat) (l tail : text) :
  b <= n -> n <= length l ->
  Str.slice a b (take n l ++ tail) = Str.slice a b l.
Proof.
  intros Hb Hn. unfold Str.slice.
  destruct (decide (a <= b)) as [Hab|Hab].
  - rewrite drop_app_le by (rewrite length_take; lia).
    rewrite take_app_le by (rewrite length_drop, length_take; lia).
    rewrite !take_drop_commute, take_take. do 2 f_equal. lia.
  - replace (b - a) with 0 by lia. reflexivity.
Qed.

Lemma position_fields_prefix (l tail : text) :
  44 <= length l -> position_fields (take 44 l ++ tail) = position_fields l.
Proof.
  intros H. unfold position_fields.
  rewrite !slice_prefix by lia. reflexivity.
Qed.

(** C5, as stated, fails: a line with velocities and the same line
    without them give the same record. *)
Lemma velocities_not_in_record :
  length line_with_velocity = 69 /\
  length line_without_velocity = 45 /\
  parse_atom line_with_velocity = parse_atom line_without_velocity /\
  (exists r, parse_atom line_with_velocity = Ok r) /\
  ~ velocities_in_record.
Proof.
  assert (parse_atom line_with_velocity = parse_atom line_without_velocity) as He
    by (vm_compute; reflexivity).
  assert (exists r, parse_atom line_with_velocity = Ok r) as [r Hr]
    by (vm_compute; eauto).
  split; [reflexivity|]. split; [reflexivity|]. split; [exact He|].
  split; [eauto|].
  intros [vel H].
  destruct (H _ _ Hr) as [H69 _]. rewrite He in Hr.
  destruct (H _ _ Hr) as [_ H45].
  destruct (H69 eq_refl) as (v & _ & Hv). rewrite (H45 eq_refl) in Hv.
  discriminate.
Qed.

(** C5, amended.  The record of an atom line holds the molecule index,
    the two names and the position, for both layouts: it is the record
    of the first 44 columns, so a 69-character line gives the record of
    the 45-character line with the same columns.  The velocity fields
    of a 69-character line are read, and have to be numbers, but they
    are not kept. *)
Theorem parse_atom_drops_velocity (l : text) (r : record) :
  atom_length l ->
  parse_atom l = Ok r ->
  position_fields l = Ok r /\
  parse_atom (take 44 l ++ [Str.newline]) = Ok r /\
  (length l = 69 -> exists v, velocity_fields l = Ok v).
Proof.
  intros Hlen Hr.
  assert (position_fields l = Ok r /\
          (length l = 69 -> exists v, velocity_fields l = Ok v)) as [Hp Hv].
  { destruct Hlen as [H45|H69].
    - rewrite parse_atom_short in Hr by lia. split; [exact Hr|lia].
    - rewrite parse_atom_long in Hr by assumption.
      apply bind_Ok in Hr as (r' & Hp & Hr).
      apply bind_Ok in Hr as (v & Hv & [= <-]). eauto. }
  repeat split; [exact Hp| |exact Hv].
  rewrite parse_atom_short.
  - rewrite position_fields_prefix; [exact Hp|]. destruct Hlen; lia.
  - rewrite length_app, length_take. cbn [length]. destruct Hlen; lia.
Qed.

(** ** Molecule offsets *)

Lemma sort_ascending (l : list (Z * nat)) :
  ascending l.*1 = true -> foldr Np.insert [] l = l.
Proof.
  induction l as [|x l IH]; [reflexivity|].
  intros H. simpl. destruct l as [|y l]; [reflexivity|].
  simpl in H. apply andb_true_iff in H as [Hxy Hl].
  rewrite (IH Hl). simpl. rewrite Hxy. reflexivity.
Qed.

Lemma fst_zip_seq (ar : list Z) (i : nat) :
  (zip ar (seq i (length ar))).*1 = ar.
Proof.
  apply fst_zip. rewrite length_seq. reflexivity.
Qed.

Lemma run_heads_zip (prev : option Z) (i : nat) (ar : list Z) :
  (Np.run_heads prev (zip ar (seq i (length ar)))).*2 =
  group_starts_from prev i ar.
Proof.
  revert prev i. induction ar as [|v ar IH]; intros prev i; simpl.
  - reflexivity.
  - destruct (bool_decide (prev = Some v)); simpl; rewrite IH; reflexivity.
Qed.

Lemma unique_ascending (ar : list Z) :
  ascending ar = true -> (Np.unique ar).2 = group_starts ar.
Proof.
  intros H. unfold Np.unique, Np.sort_indexed. simpl.
  rewrite sort_ascending by (rewrite fst_zip_seq; exact H).
  apply run_heads_zip.
Qed.

(** ** What the writer emits *)

Lemma for_each_seq_outcome {St} (body : nat -> St -> result St)
    (Inv : nat -> St -> Prop) (Err : exn -> Prop) (a m : nat) (s : St) :
  Inv a s ->
  (forall j s, a <= j < a + m -> Inv j s ->
     match body j s with
     | Ok s' => Inv (S j) s'
     | Raise e => Err e
     end) ->
  match for_each body (seq a m) s with
  | Ok s' => Inv (a + m) s'
  | Raise e => Err e
  end.
Proof.
  revert a s. induction m as [|m IH]; intros a s Hs Hstep; simpl.
  - rewrite Nat.add_0_r. exact Hs.
  - pose proof (Hstep a s ltac:(lia) Hs) as Ha.
    destruct (body a s) as [s'|e]; simpl; [|exact Ha].
    replace (a + S m) with (S a + m) by lia.
    apply IH; [exact Ha|]. intros j s0 Hj. apply Hstep. lia.
Qed.

Section Writing.

Variable sys : System.

Lemma write_atom_outcome (i o n j : nat) (mentry : dict) (res_name : text)
    (ks : list nat) (st : wstate) :
  i < n_mol sys ->
  mol_n_atoms sys !! i = Some n ->
  mol_export sys !! i = Some mentry ->
  mentry !! "groname"%string = Some res_name ->
  j < n ->
  (mol_indices sys !! i = Some o \/ mol_indices sys !! i = None) ->
  (written sys) ks st ->
  match write_atom sys i (N.of_nat (i + 1)) res_name j st with
  | Ok st' => mol_indices sys !! i = Some o -> (written sys) (ks ++ [o + j]) st'
  | Raise e => (failure sys) e
  end.
Proof.
  intros Hi Hn Hm Hname Hj Ho (L & HL & Hat & Hlen & Hlines).
  unfold write_atom, getitem.
  destruct (mol_indices sys !! i) as [o'|] eqn:Hoff; simpl.
  2: { right. split; [reflexivity|]. exists i. split; [assumption|].
       right. right. exists n. split; [assumption|]. split; [lia|]. left. assumption. }
  destruct (atom_export_array sys !! (o' + j)) as [aentry|] eqn:Ha; simpl.
  2: { right. split; [reflexivity|]. exists i. split; [assumption|].
       right. right. exists n. split; [assumption|]. split; [lia|]. right.
       exists o', j. auto. }
  unfold export_entry.
  destruct (aentry !! "grotype"%string) as [at_name|] eqn:Hat_name; simpl.
  2: { left. right. left. split; [reflexivity|]. exists (o' + j), aentry. auto. }
  destruct (r_array sys !! (o' + j)) as [[[x y] z]|] eqn:Hr; simpl.
  2: { right. split; [reflexivity|]. exists i. split; [assumption|].
       right. right. exists n. split; [assumption|]. split; [lia|]. right.
       exists o', j. auto. }
  intros [= <-].
  exists (L ++ [format_atom (N.of_nat (i + 1)) res_name at_name
                  ((st.1 + 1) mod 99999) x y z]).
  simpl. rewrite HL, <- app_assoc. split; [reflexivity|].
  rewrite !length_app. simpl. split; [lia|]. split; [lia|].
  intros p k line Hk Hline.
  destruct (decide (p < length L)) as [Hp|Hp].
  - rewrite lookup_app_l in Hk by lia. rewrite lookup_app_l in Hline by lia.
    eauto.
  - rewrite lookup_app_r in Hk by lia. rewrite lookup_app_r in Hline by lia.
    rewrite Hlen in Hline.
    destruct (p - length ks) as [|?] eqn:Hpk; simpl in Hk, Hline; [|discriminate].
    injection Hk as <-. injection Hline as <-.
    exists i, o', n, mentry, res_name, aentry, at_name, x, y, z.
    repeat split; try assumption; try lia.
    do 2 f_equal. lia.
Qed.

Lemma visited_succ (m : nat) : (visited sys) (S m) = (visited sys) m ++ (atoms_of sys) m.
Proof.
  unfold visited. rewrite seq_S, flat_map_app. simpl.
  rewrite app_nil_r. reflexivity.
Qed.

Lemma write_molecule_outcome (i : nat) (st : wstate) :
  i < n_mol sys ->
  (written sys) ((visited sys) i) st ->
  match write_molecule sys i st with
  | Ok st' => (written sys) ((visited sys) (S i)) st' /\ (has_groname sys) i
  | Raise e => (failure sys) e
  end.
Proof.
  intros Hi Hst. unfold write_molecule, getitem.
  destruct (mol_export sys !! i) as [mentry|] eqn:Hm; simpl.
  2: { right. split; [reflexivity|]. exists i. auto. }
  unfold export_entry.
  destruct (mentry !! "groname"%string) as [res_name|] eqn:Hname; simpl.
  2: { left. left. split; [reflexivity|]. exists i, mentry. auto. }
  destruct (mol_n_atoms sys !! i) as [n|] eqn:Hn; simpl.
  2: { right. split; [reflexivity|]. exists i. auto. }
  rewrite visited_succ. unfold atoms_of. rewrite Hn.
  destruct (mol_indices sys !! i) as [o|] eqn:Ho.
  - pose proof (for_each_seq_outcome
      (write_atom sys i (N.of_nat (i + 1)) res_name)
      (fun j st => (written sys) ((visited sys) i ++ seq o j) st) (failure sys) 0 n st) as H.
    cbn beta in H. change (seq o 0) with (@nil nat) in H.
    rewrite app_nil_r, Nat.add_0_l in H. specialize (H Hst).
    destruct (for_each _ (seq 0 n) st) as [st'|e].
    + split; [|exists mentry, res_name; auto]. apply H.
      intros j s Hj Hs.
      pose proof (write_atom_outcome i o n j mentry res_name _ s
                    Hi Hn Hm Hname ltac:(lia) ltac:(left; exact Ho) Hs) as Hw.
      destruct (write_atom _ _ _ _ _ s); [|exact Hw].
      rewrite seq_S, app_assoc. apply Hw. exact Ho.
    + apply H. intros j s Hj Hs.
      pose proof (write_atom_outcome i o n j mentry res_name _ s
                    Hi Hn Hm Hname ltac:(lia) ltac:(left; exact Ho) Hs) as Hw.
      destruct (write_atom _ _ _ _ _ s); [|exact Hw].
      rewrite seq_S, app_assoc. apply Hw. exact Ho.
  - rewrite app_nil_r.
    pose proof (for_each_seq_outcome
      (write_atom sys i (N.of_nat (i + 1)) res_name)
      (fun j st => j = 0 /\ (written sys) ((visited sys) i) st) (failure sys) 0 n st) as H.
    cbn beta in H. rewrite Nat.add_0_l in H. specialize (H (conj eq_refl Hst)).
    assert (forall j s, 0 <= j < n -> j = 0 /\ (written sys) ((visited sys) i) s ->
              match write_atom sys i (N.of_nat (i + 1)) res_name j s with
              | Ok s' => S j = 0 /\ (written sys) ((visited sys) i) s'
              | Raise e => (failure sys) e
              end) as Hstep.
    { intros j s Hj [_ Hs].
      pose proof (write_atom_outcome i 0 n j mentry res_name _ s
                    Hi Hn Hm Hname ltac:(lia) ltac:(right; exact Ho) Hs) as Hw.
      unfold write_atom, getitem in *. rewrite Ho in *. exact Hw. }
    specialize (H Hstep).
    destruct (for_each _ (seq 0 n) st) as [st'|e]; [|exact H].
    destruct H as [Hz Hst']. split; [exact Hst'|exists mentry, res_name; auto].
Qed.

(** The outcome of the writer, whatever the system: either every line,
    built from the atoms (visited sys), or an exception that names a missing
    item or comes from an index out of range. *)
Lemma gro_lines_outcome :
  match gro_lines sys with
  | Ok lines =>
      exists L b,
        lines = (header sys) ++ L ++ [format_box b.1.1.1.1 b.1.2.1.2 b.2.2] /\
        box_vectors sys = Some b /\
        (written sys) ((visited sys) (n_mol sys)) (N.of_nat (length L), (header sys) ++ L) /\
        forall i, i < n_mol sys -> (has_groname sys) i
  | Raise e => (failure sys) e
  end.
Proof.
  unfold gro_lines.
  pose proof (for_each_seq_outcome (write_molecule sys)
    (fun i st => (written sys) ((visited sys) i) st /\ forall i', i' < i -> (has_groname sys) i')
    (failure sys) 0 (n_mol sys) (0%N, (header sys))) as H.
  cbn beta in H. rewrite Nat.add_0_l in H.
  assert ((written sys) [] (0%N, (header sys)) /\ (forall i', i' < 0 -> (has_groname sys) i')) as H0.
  { split; [|intros; lia]. exists []. cbn [fst snd]. rewrite app_nil_r.
    repeat split. intros p k line Hk. discriminate. }
  specialize (H H0). fold (header sys).
  assert (forall j s, 0 <= j < n_mol sys ->
            (written sys) ((visited sys) j) s /\ (forall i', i' < j -> (has_groname sys) i') ->
            match write_molecule sys j s with
            | Ok s' => (written sys) ((visited sys) (S j)) s' /\
                       (forall i', i' < S j -> (has_groname sys) i')
            | Raise e => (failure sys) e
            end) as Hstep.
  { intros j s Hj [Hw Hnames].
    pose proof (write_molecule_outcome j s ltac:(lia) Hw) as Hm.
    destruct (write_molecule sys j s); [|exact Hm].
    destruct Hm as [Hw' Hj']. split; [exact Hw'|].
    intros i' Hi'. destruct (decide (i' = j)) as [->|]; [exact Hj'|].
    apply Hnames. lia. }
  specialize (H Hstep).
  destruct (for_each (write_molecule sys) _ _) as [st|e]; simpl; [|exact H].
  destruct H as [(L & HL & Hat & Hlen & Hlines) Hnames].
  destruct (box_vectors sys) as [b|] eqn:Hb.
  - exists L, b. rewrite HL, <- app_assoc. repeat split; try assumption.
    exists L. simpl. repeat split; assumption.
  - left. right. right. auto.
Qed.

End Writing.

(** ** Systems *)

Lemma visited_atoms_of (sys : System) (i m k : nat) :
  i < m -> In k (atoms_of sys i) -> In k (visited sys m).
Proof.
  intros Hi Hk. unfold visited. apply in_flat_map. exists i.
  split; [apply in_seq; lia|exact Hk].
Qed.

Lemma well_formed_in_range (sys : System) :
  well_formed sys -> ~ out_of_range sys.
Proof.
  intros [Hme Hmi Hmn Hae Hr Hv] (i & Hi & H).
  destruct H as [H|[H|(n & Hn & Hpos & H)]].
  - apply lookup_ge_None in H. lia.
  - apply lookup_ge_None in H. lia.
  - destruct H as [H|(o & j & Ho & Hj & H)].
    + apply lookup_ge_None in H. lia.
    + assert (In (o + j) (visited sys (n_mol sys))) as Hin.
      { apply (visited_atoms_of sys i); [exact Hi|].
        unfold atoms_of. rewrite Ho, Hn. apply in_seq. lia. }
      rewrite Hv in Hin. apply in_seq in Hin.
      destruct H as [H|H]; apply lookup_ge_None in H; lia.
Qed.

Lemma written_has_grotype (sys : System) (ks : list nat) (st : wstate) (k : nat) :
  written sys ks st -> In k ks -> has_grotype sys k.
Proof.
  intros (L & _ & _ & Hlen & Hlines) Hk.
  apply list_elem_of_In, list_elem_of_lookup in Hk as [p Hp].
  destruct (lookup_lt_is_Some_2 L p) as [line Hline].
  { rewrite Hlen. eapply lookup_lt_Some; eassumption. }
  destruct (Hlines p k line Hp Hline)
    as (i & o & n & mentry & res_name & aentry & at_name & x & y & z & H).
  exists aentry, at_name. tauto.
Qed.

(** When the writer gets to the end, nothing was missing. *)
Lemma gro_lines_Ok_complete (sys : System) (lines : list text) :
  well_formed sys ->
  gro_lines sys = Ok lines ->
  ~ lacks_groname sys /\ ~ lacks_grotype sys /\ box_vectors sys <> None.
Proof.
  intros Hwf Hok. pose proof (gro_lines_outcome sys) as H. rewrite Hok in H.
  destruct H as (L & b & _ & Hb & Hw & Hnames).
  destruct Hwf as [Hme Hmi Hmn Hae Hr Hv].
  split; [|split].
  - intros (i & entry & Hentry & Hnone).
    destruct (Hnames i) as (entry' & res_name & Hentry' & Hsome).
    { rewrite <- Hme. eapply lookup_lt_Some; eassumption. }
    congruence.
  - intros (k & entry & Hentry & Hnone).
    destruct (written_has_grotype sys _ _ k Hw) as (entry' & at_name & Hentry' & Hsome).
    { rewrite Hv. apply in_seq. apply lookup_lt_Some in Hentry. lia. }
    congruence.
  - congruence.
Qed.

(** C2. When a molecule has no [groname], an atom has no [grotype], or
    the box vectors are not set, [write_gro] raises an [Exception]
    whose message is the one for a missing item of the system, and the
    disk is left as it was: the file is neither created nor changed. *)
Theorem write_gro_missing_data (sys : System) (filename : string) (fs : disk) :
  well_formed sys ->
  lacks_groname sys \/ lacks_grotype sys \/ box_vectors sys = None ->
  exists msg,
    write_gro sys filename fs = (fs, Raise (Exception msg)) /\
    GromacsIO.write filename "system" sys fs = (fs, Raise (Exception msg)) /\
    ((msg = "Gromacs exporter need the residue name as groname"%string
      /\ lacks_groname sys) \/
     (msg = "Gromacs exporter needs the atom type as grotype"%string
      /\ lacks_grotype sys) \/
     (msg = need_box /\ box_vectors sys = None)).
Proof.
  intros Hwf Hmissing.
  unfold GromacsIO.write. simpl. unfold write_gro.
  pose proof (gro_lines_outcome sys) as H.
  destruct (gro_lines sys) as [lines|e] eqn:Hlines.
  - destruct (gro_lines_Ok_complete sys lines Hwf Hlines) as (H1 & H2 & H3).
    tauto.
  - destruct H as [H|[_ H]].
    + destruct H as [[-> H]|[[-> H]|[-> H]]]; eexists;
        (split; [reflexivity|split; [reflexivity|]]); tauto.
    + exfalso. exact (well_formed_in_range sys Hwf H).
Qed.

(** With nothing missing, the writer gets to the end. *)
Lemma gro_lines_complete_Ok (sys : System) :
  well_formed sys ->
  ~ lacks_groname sys -> ~ lacks_grotype sys -> box_vectors sys <> None ->
  exists lines, gro_lines sys = Ok lines.
Proof.
  intros Hwf H1 H2 H3. pose proof (gro_lines_outcome sys) as H.
  destruct (gro_lines sys) as [lines|e]; [eauto|].
  exfalso. destruct H as [H|[_ H]].
  - destruct H as [[_ H]|[[_ H]|[_ H]]]; tauto.
  - exact (well_formed_in_range sys Hwf H).
Qed.

(** ** Decimal digits *)

Lemma digits_onto_length (fuel : nat) (n : N) (acc : text) (k : nat) :
  (n < 10 ^ N.of_nat k)%N -> 1 <= k ->
  length (Int.digits_onto fuel n acc) <= length acc + k.
Proof.
  revert n acc k. induction fuel as [|fuel IH]; intros n acc k Hn Hk; simpl.
  - lia.
  - destruct (n / 10 =? 0)%N eqn:Hq; simpl; [lia|].
    apply N.eqb_neq in Hq.
    destruct k as [|[|k]]; [lia| |].
    + exfalso. apply Hq. apply N.div_small. simpl in Hn. lia.
    + specialize (IH (n / 10)%N (Int.digit_char (n mod 10) :: acc) (S k)).
      simpl in IH. etransitivity; [apply IH; [|lia]|lia].
      apply N.Div0.div_lt_upper_bound.
      replace (N.of_nat (S (S k))) with (N.succ (N.of_nat (S k))) in Hn by lia.
      rewrite N.pow_succ_r' in Hn. exact Hn.
Qed.

Lemma str_length (n : N) (k : nat) :
  (n < 10 ^ N.of_nat k)%N -> 1 <= k -> length (Int.str n) <= k.
Proof.
  intros Hn Hk. unfold Int.str.
  pose proof (digits_onto_length (S (N.to_nat (N.log2 n))) n [] k Hn Hk) as H.
  simpl in H. exact H.
Qed.

Lemma rjust_length (w : nat) (s : text) :
  length (Str.rjust w s) = Nat.max w (length s).
Proof. unfold Str.rjust. rewrite length_app, length_replicate. lia. Qed.

Lemma ljust_length (w : nat) (s : text) :
  length (Str.ljust w s) = Nat.max w (length s).
Proof. unfold Str.ljust. rewrite length_app, length_replicate. lia. Qed.

Lemma serial_field_length (n : N) :
  length (Str.rjust 5 (Int.str (n mod 99999))) = 5.
Proof.
  rewrite rjust_length.
  pose proof (str_length (n mod 99999) 5) as H.
  pose proof (N.mod_upper_bound n 99999 ltac:(lia)) as Hmod.
  specialize (H ltac:(simpl; lia) ltac:(lia)). lia.
Qed.

(** ** The atom serial *)

(** C4, amended.  When [write_gro] gets to the end, the lines are the
    two header lines, one line for every atom visited, and the box
    line.  The line of the [p]-th atom written (counting from 0)
    carries the number of its molecule, [i + 1], as it is, and the
    running count [p + 1] modulo 99999, which always fills exactly five
    characters, padded with spaces on the left: for the 100,001st atom
    it is four spaces and [2]. *)
Theorem serial_wraps (sys : System) (lines : list text) :
  gro_lines sys = Ok lines ->
  exists (L : list text) (b : matrix),
    lines = header sys ++ L ++ [format_box b.1.1.1.1 b.1.2.1.2 b.2.2] /\
    length L = length (visited sys (n_mol sys)) /\
    forall p line,
      L !! p = Some line ->
      (exists k, visited sys (n_mol sys) !! p = Some k /\
                 atom_line_of sys p k line) /\
      length (Str.rjust 5 (Int.str (N.of_nat (p + 1) mod 99999))) = 5 /\
      (N.of_nat (p + 1) = 100001%N ->
       Str.rjust 5 (Int.str (N.of_nat (p + 1) mod 99999)) = txt "    2").
Proof.
  intros Hok. pose proof (gro_lines_outcome sys) as H. rewrite Hok in H.
  destruct H as (L & b & Hlines & Hb & (L' & HL' & _ & Hlen & Hat) & _).
  cbn [snd] in HL'. apply app_inv_head in HL'. subst L'.
  exists L, b. split; [exact Hlines|]. split; [exact Hlen|].
  intros p line Hline. split; [|split].
  - destruct (lookup_lt_is_Some_2 (visited sys (n_mol sys)) p) as [k Hk].
    { rewrite <- Hlen. eapply lookup_lt_Some; eassumption. }
    exists k. split; [exact Hk|]. apply Hat; assumption.
  - apply serial_field_length.
  - intros ->. reflexivity.
Qed.

(** ** Reading back what [str] wrote *)

Lemma digit_val_char (d : N) :
  (d < 10)%N -> Int.digit_val (Int.digit_char d) = Some d.
Proof.
  intros H.
  assert (d = 0 \/ d = 1 \/ d = 2 \/ d = 3 \/ d = 4 \/ d = 5 \/ d = 6 \/
          d = 7 \/ d = 8 \/ d = 9)%N as Hd by lia.
  repeat destruct Hd as [->|Hd]; try reflexivity. subst. reflexivity.
Qed.

Lemma is_digit_char (d : N) : (d < 10)%N -> Int.is_digit (Int.digit_char d) = true.
Proof. intros H. unfold Int.is_digit. rewrite digit_val_char by exact H. reflexivity. Qed.

Lemma digits_onto_app (fuel : nat) (n : N) (acc : text) :
  Int.digits_onto fuel n acc = Int.digits_onto fuel n [] ++ acc.
Proof.
  revert n acc. induction fuel as [|fuel IH]; intros n acc; simpl; [reflexivity|].
  destruct (n / 10 =? 0)%N; [reflexivity|].
  rewrite IH, (IH _ [_]), <- app_assoc. reflexivity.
Qed.

Lemma digits_val_app (a : N) (s t : text) :
  Int.digits_val a (s ++ t) =
  match Int.digits_val a s with
  | Some v => Int.digits_val v t
  | None => None
  end.
Proof.
  revert a. induction s as [|c s IH]; intros a; simpl; [reflexivity|].
  destruct (Int.digit_val c); [apply IH|reflexivity].
Qed.

Lemma digits_val_shift (a v : N) (s : text) :
  Int.digits_val 0 s = Some v ->
  Int.digits_val a s = Some (a * 10 ^ N.of_nat (length s) + v)%N.
Proof.
  revert a v. induction s as [|c s IH] using rev_ind; intros a v; simpl.
  - intros [= <-]. f_equal. lia.
  - rewrite !digits_val_app. destruct (Int.digits_val 0 s) as [u|] eqn:Hu; [|discriminate].
    rewrite (IH a u eq_refl). simpl.
    destruct (Int.digit_val c) as [d|]; [|discriminate].
    intros [= <-]. f_equal. rewrite length_app. simpl.
    replace (N.of_nat (length s + 1)) with (N.succ (N.of_nat (length s))) by lia.
    rewrite N.pow_succ_r'. lia.
Qed.

Lemma digits_onto_val (fuel : nat) (n : N) :
  (n < 2 ^ N.of_nat fuel)%N ->
  Int.digits_val 0 (Int.digits_onto fuel n []) = Some n.
Proof.
  revert n. induction fuel as [|fuel IH]; intros n Hn.
  - change (2 ^ N.of_nat 0)%N with 1%N in Hn. cbn [Int.digits_onto Int.digits_val].
    f_equal. lia.
  - cbn [Int.digits_onto].
    assert (n mod 10 < 10)%N as Hmod by (apply N.mod_upper_bound; lia).
    destruct (n / 10 =? 0)%N eqn:Hq.
    + cbn [Int.digits_val]. rewrite digit_val_char by exact Hmod.
      cbn [Int.digits_val]. f_equal.
      apply N.eqb_eq in Hq. pose proof (N.div_mod n 10 ltac:(lia)). lia.
    + rewrite digits_onto_app, digits_val_app, IH.
      * cbn [Int.digits_val]. rewrite digit_val_char by exact Hmod.
        cbn [Int.digits_val]. f_equal.
        pose proof (N.div_mod n 10 ltac:(lia)). lia.
      * replace (N.of_nat (S fuel)) with (N.succ (N.of_nat fuel)) in Hn by lia.
        rewrite N.pow_succ_r' in Hn.
        apply N.Div0.div_lt_upper_bound. lia.
Qed.

Lemma str_fuel (n : N) : (n < 2 ^ N.of_nat (S (N.to_nat (N.log2 n))))%N.
Proof.
  replace (N.of_nat (S (N.to_nat (N.log2 n)))) with (N.succ (N.log2 n)) by lia.
  destruct (N.eq_dec n 0%N) as [->|Hn]; [reflexivity|].
  apply N.log2_spec. lia.
Qed.

Lemma str_val (n : N) : Int.digits_val 0 (Int.str n) = Some n.
Proof. apply digits_onto_val, str_fuel. Qed.

Lemma digits_onto_digits (fuel : nat) (n : N) (acc : text) :
  Forall (fun c => Int.is_digit c = true) acc ->
  Forall (fun c => Int.is_digit c = true) (Int.digits_onto fuel n acc).
Proof.
  revert n acc. induction fuel as [|fuel IH]; intros n acc Hacc; simpl; [exact Hacc|].
  assert (Int.is_digit (Int.digit_char (n mod 10)) = true) as Hd.
  { apply is_digit_char, N.mod_upper_bound. lia. }
  destruct (n / 10 =? 0)%N; [|apply IH]; constructor; assumption.
Qed.

Lemma str_digits (n : N) : Forall (fun c => Int.is_digit c = true) (Int.str n).
Proof. apply digits_onto_digits. constructor. Qed.

Lemma str_nonempty (n : N) : Int.str n <> [].
Proof.
  unfold Int.str. cbn [Int.digits_onto].
  destruct (n / 10 =? 0)%N; [discriminate|].
  rewrite digits_onto_app. intros H. apply app_eq_nil in H as [_ H]. discriminate.
Qed.

Lemma digits_onto_length_ge (fuel : nat) (n : N) (acc : text) (k : nat) :
  (n < 2 ^ N.of_nat fuel)%N -> (10 ^ N.of_nat k <= n)%N ->
  length acc + k < length (Int.digits_onto fuel n acc).
Proof.
  revert n acc k. induction fuel as [|fuel IH]; intros n acc k Hn Hk.
  - change (2 ^ N.of_nat 0)%N with 1%N in Hn.
    assert (0 < 10 ^ N.of_nat k)%N by (apply N.neq_0_lt_0, N.pow_nonzero; lia).
    lia.
  - cbn [Int.digits_onto].
    destruct (n / 10 =? 0)%N eqn:Hq.
    + apply N.eqb_eq in Hq. cbn [length].
      destruct k as [|k]; [lia|]. exfalso.
      replace (N.of_nat (S k)) with (N.succ (N.of_nat k)) in Hk by lia.
      rewrite N.pow_succ_r' in Hk.
      assert (0 < 10 ^ N.of_nat k)%N by (apply N.neq_0_lt_0, N.pow_nonzero; lia).
      assert (n < 10)%N.
      { pose proof (N.div_mod n 10 ltac:(lia)).
        pose proof (N.mod_upper_bound n 10 ltac:(lia)). lia. }
      lia.
    + replace (N.of_nat (S fuel)) with (N.succ (N.of_nat fuel)) in Hn by lia.
      rewrite N.pow_succ_r' in Hn.
      destruct k as [|k].
      * pose proof (digits_onto_app fuel (n / 10) (Int.digit_char (n mod 10) :: acc)) as E.
        rewrite E, length_app. cbn [length]. lia.
      * specialize (IH (n / 10)%N (Int.digit_char (n mod 10) :: acc) k).
        cbn [length] in IH.
        assert (n / 10 < 2 ^ N.of_nat fuel)%N as H1
          by (apply N.Div0.div_lt_upper_bound; lia).
        assert (10 ^ N.of_nat k <= n / 10)%N as H2.
        { replace (N.of_nat (S k)) with (N.succ (N.of_nat k)) in Hk by lia.
          rewrite N.pow_succ_r' in Hk.
          apply N.div_le_lower_bound; lia. }
        specialize (IH H1 H2). lia.
Qed.

Lemma str_length_inv (n : N) (k : nat) :
  length (Int.str n) <= k -> (n < 10 ^ N.of_nat k)%N.
Proof.
  intros H. destruct (N.lt_ge_cases n (10 ^ N.of_nat k)) as [|Hge]; [assumption|].
  pose proof (digits_onto_length_ge _ n [] k (str_fuel n) Hge) as Hlt.
  unfold Int.str in H. cbn [length] in Hlt. lia.
Qed.
(** ** Characters *)

Lemma digit_not_space (c : ascii) :
  Int.is_digit c = true ->
  Str.is_space c = false /\ Ascii.eqb c Str.newline = false /\
  Ascii.eqb c "-" = false /\ Ascii.eqb c "+" = false /\
  Ascii.eqb c "." = false /\ lower c = c /\ c <> "i"%char /\ c <> "n"%char.
Proof.
  destruct c as [[] [] [] [] [] [] [] []]; vm_compute; intros H;
    try discriminate H; repeat split; discriminate.
Qed.

Lemma digits_no_space (s : text) :
  Forall (fun c => Int.is_digit c = true) s -> no_space s.
Proof.
  intros H. eapply Forall_impl; [exact H|].
  intros c Hc. apply digit_not_space. exact Hc.
Qed.

(** ** [strip] and padding *)

Lemma lstrip_padding (n : nat) (s : text) :
  Str.lstrip (replicate n Str.space ++ s) = Str.lstrip s.
Proof. induction n as [|n IH]; [reflexivity|exact IH]. Qed.

Lemma lstrip_no_space (s : text) : no_space s -> Str.lstrip s = s.
Proof. intros H. destruct H as [|c s Hc _]; simpl; [reflexivity|]. rewrite Hc. reflexivity. Qed.

Lemma rstrip_no_space (s : text) : no_space s -> Str.rstrip s = s.
Proof.
  intros H. unfold Str.rstrip. rewrite lstrip_no_space.
  - apply rev_involutive.
  - apply Forall_rev. exact H.
Qed.

Lemma strip_padded (n : nat) (s : text) :
  no_space s -> Str.strip (replicate n Str.space ++ s) = s.
Proof.
  intros H. unfold Str.strip.
  rewrite lstrip_padding, lstrip_no_space by exact H.
  apply rstrip_no_space. exact H.
Qed.

Lemma strip_rjust (w : nat) (s : text) : no_space s -> Str.strip (Str.rjust w s) = s.
Proof. apply strip_padded. Qed.

(** ** [int] reads what [str] wrote *)

Lemma take_sign_digit (c : ascii) (s : text) :
  Int.is_digit c = true -> Int.take_sign (c :: s) = (false, c :: s).
Proof.
  intros H. destruct (digit_not_space c H) as (_ & _ & Hm & Hp & _).
  unfold Int.take_sign. rewrite Hm, Hp. reflexivity.
Qed.

Lemma int_rjust_str (w : nat) (n : N) :
  Int.int (Str.rjust w (Int.str n)) = Ok (Z.of_N n).
Proof.
  unfold Int.int.
  rewrite strip_rjust by (apply digits_no_space, str_digits).
  pose proof (str_digits n) as Hd. pose proof (str_val n) as Hv.
  pose proof (str_nonempty n) as Hne.
  destruct (Int.str n) as [|c s]; [congruence|].
  rewrite take_sign_digit by (inversion Hd; assumption).
  rewrite Hv. reflexivity.
Qed.

(** A newline at the end of a field does not change its number. *)
Lemma strip_newline (s : text) :
  Str.strip (s ++ [Str.newline]) = Str.strip s.
Proof.
  unfold Str.strip.
  assert (forall t, Str.rstrip (t ++ [Str.newline]) = Str.rstrip t) as Hr.
  { intros t. unfold Str.rstrip. rewrite rev_app_distr. reflexivity. }
  induction s as [|c s IH]; [reflexivity|].
  simpl. destruct (Str.is_space c); [exact IH|].
  apply (Hr (c :: s)).
Qed.
(** ** Rounding *)

Lemma rne_spec (a b : Z) :
  (0 < b)%Z -> (0 <= a)%Z ->
  (0 <= rne a b)%Z /\ (2 * Z.abs (a - rne a b * b) <= b)%Z.
Proof.
  intros Hb Ha. unfold rne.
  pose proof (Z.div_mod a b ltac:(lia)) as Hdm.
  pose proof (Z.mod_pos_bound a b Hb) as Hmod.
  assert (0 <= a / b)%Z as Hq by (apply Z.div_pos; lia).
  destruct (2 * (a mod b) ?= b)%Z eqn:Hc.
  - apply Z.compare_eq in Hc. destruct (Z.even (a / b)); split; nia.
  - rewrite Z.compare_lt_iff in Hc. split; nia.
  - rewrite Z.compare_gt_iff in Hc. split; nia.
Qed.

Lemma rne_near (a b n : Z) :
  (0 < b)%Z -> (2 * Z.abs (a - n * b) < b)%Z -> rne a b = n.
Proof.
  intros Hb Hn. unfold rne.
  pose proof (Z.div_mod a b ltac:(lia)) as Hdm.
  pose proof (Z.mod_pos_bound a b Hb) as Hmod.
  assert (a / b = n \/ a / b = n - 1)%Z as Hq by nia.
  destruct (2 * (a mod b) ?= b)%Z eqn:Hc.
  - apply Z.compare_eq in Hc. nia.
  - rewrite Z.compare_lt_iff in Hc. nia.
  - rewrite Z.compare_gt_iff in Hc. nia.
Qed.

(** The binary64 value nearest to a short decimal is close enough to
    it to be printed as the same decimal. *)
Lemma of_ratio_near (neg : bool) (n d : Z) :
  (0 < n < 2 ^ 52)%Z -> (2 <= d < 2 ^ 52)%Z ->
  exists m e,
    of_ratio neg n d = Fin neg (Z.to_N m) e /\
    (e < 0)%Z /\ (0 < m)%Z /\
    (2 * Z.abs (m * d - n * 2 ^ (- e)) < 2 ^ (- e))%Z.
Proof.
  intros Hn Hd. unfold of_ratio.
  assert ((n =? 0)%Z = false) as -> by lia.
  set (l := (Z.log2 n - Z.log2 d)%Z).
  set (below := if (0 <=? l)%Z then (n <? d * 2 ^ l)%Z else (n * 2 ^ (- l) <? d)%Z).
  set (e0 := if below then (l - 1)%Z else l).
  set (e := Z.max (e0 - 52) (-1074)).
  assert (Z.log2 n < 52)%Z as Hln by (apply Z.log2_lt_pow2; lia).
  assert (Z.log2 d < 52)%Z as Hld by (apply Z.log2_lt_pow2; lia).
  assert (1 <= Z.log2 d)%Z as Hld1 by (apply Z.log2_le_pow2; simpl; lia).
  assert (e0 <= l)%Z as He0 by (unfold e0; destruct below; lia).
  assert (e <= - (Z.log2 d + 1))%Z as He by (unfold e, l in *; lia).
  assert ((0 <=? e)%Z = false) as -> by lia.
  remember (- e)%Z as k eqn:Hk.
  assert (Z.log2 d + 1 <= k)%Z as Hkd by lia.
  assert (d < 2 ^ k)%Z as Hdk.
  { pose proof (Z.log2_spec d ltac:(lia)) as [_ Hs].
    eapply Z.lt_le_trans; [exact Hs|].
    replace (Z.succ (Z.log2 d)) with (Z.log2 d + 1)%Z by lia.
    apply Z.pow_le_mono_r; lia. }
  assert (2 ^ k = 2 * 2 ^ (k - 1))%Z as Hk2.
  { replace k with (Z.succ (k - 1)) at 1 by lia. apply Z.pow_succ_r. lia. }
  assert (0 < 2 ^ (k - 1))%Z as Hkpos by (apply Z.pow_pos_nonneg; lia).
  pose proof (rne_spec (n * 2 ^ k) d ltac:(lia) ltac:(nia)) as [Hm0 Hm].
  remember (rne (n * 2 ^ k) d) as m eqn:Em.
  assert (0 < m)%Z as Hmpos by nia.
  destruct (m =? 2 ^ 53)%Z eqn:H53.
  - apply Z.eqb_eq in H53.
    assert ((2 ^ 52 =? 0)%Z = false) as -> by reflexivity.
    assert ((971 <? e + 1)%Z = false) as -> by lia.
    exists (2 ^ 52)%Z, (e + 1)%Z. split; [reflexivity|].
    split; [lia|]. split; [reflexivity|].
    replace (- (e + 1))%Z with (k - 1)%Z by lia.
    assert (m = 2 * 2 ^ 52)%Z as Hm2 by (rewrite H53; reflexivity).
    remember (2 ^ 52)%Z as M. remember (2 ^ (k - 1))%Z as K.
    rewrite Hk2 in *. nia.
  - apply Z.eqb_neq in H53.
    assert ((m =? 0)%Z = false) as -> by lia.
    assert ((971 <? e)%Z = false) as -> by lia.
    exists m, e. split; [reflexivity|]. split; [lia|]. split; [exact Hmpos|].
    rewrite <- Hk. nia.
Qed.

Lemma scaled_near (p : nat) (m e n : Z) :
  (e < 0)%Z -> (0 < m)%Z ->
  (2 * Z.abs (m * 10 ^ Z.of_nat p - n * 2 ^ (- e)) < 2 ^ (- e))%Z ->
  scaled p (Z.to_N m) e = Z.to_N n.
Proof.
  intros He Hm H. unfold scaled.
  assert ((0 <=? e)%Z = false) as -> by lia.
  rewrite Z2N.id by lia. f_equal.
  apply rne_near; [|exact H]. apply Z.pow_pos_nonneg; lia.
Qed.

Lemma format_of_ratio (p : nat) (neg : bool) (r : N) :
  1 <= p -> p <= 15 -> (r < 2 ^ 52)%N ->
  format_f p (of_ratio neg (Z.of_N r) (10 ^ Z.of_nat p)) =
  sign_text neg ++ fixed p r.
Proof.
  intros Hp Hp15 Hr.
  destruct (N.eq_dec r 0%N) as [->|Hr0].
  - unfold of_ratio. cbn [Z.of_N Z.eqb format_f]. unfold scaled.
    cbn [Z.leb Z.compare Z.of_N Z.mul Z.to_N]. reflexivity.
  - assert (2 <= 10 ^ Z.of_nat p < 2 ^ 52)%Z as Hd.
    { split.
      - change 2%Z with (2 ^ 1)%Z at 1.
        etransitivity; [apply (Z.pow_le_mono_l 2 10 1); lia|].
        apply Z.pow_le_mono_r; lia.
      - eapply Z.le_lt_trans; [apply (Z.pow_le_mono_r 10 (Z.of_nat p) 15); lia|].
        reflexivity. }
    destruct (of_ratio_near neg (Z.of_N r) (10 ^ Z.of_nat p))
      as (m & e & -> & He & Hm & Hnear); [|exact Hd|].
    { split; [lia|]. change (2 ^ 52)%Z with (Z.of_N (2 ^ 52)). lia. }
    simpl. rewrite (scaled_near p m e (Z.of_N r)) by assumption.
    rewrite N2Z.id. reflexivity.
Qed.

(** ** [float] reads what [format] wrote *)

Lemma span_digits_stop (ds rest : text) :
  all_digits ds ->
  match rest with [] => True | c :: _ => Int.is_digit c = false end ->
  span_digits (ds ++ rest) = (ds, rest).
Proof.
  intros Hds Hrest. induction Hds as [|c ds Hc _ IH]; simpl.
  - destruct rest as [|c rest]; [reflexivity|]. simpl. rewrite Hrest. reflexivity.
  - rewrite Hc, IH. reflexivity.
Qed.

Lemma span_digits_all (ds : text) : all_digits ds -> span_digits ds = (ds, []).
Proof.
  intros H. rewrite <- (app_nil_r ds) at 1. apply span_digits_stop; [exact H|exact I].
Qed.

Lemma sign_text_no_space (neg : bool) : no_space (sign_text neg).
Proof. destruct neg; repeat constructor. Qed.

Lemma of_text_literal (pad : nat) (neg : bool) (d1 d2 : text) (v : N) :
  d1 <> [] -> all_digits d1 -> all_digits d2 ->
  Int.digits_val 0 (d1 ++ d2) = Some v ->
  of_text (replicate pad Str.space ++ sign_text neg ++ d1 ++ "."%char :: d2) =
  Ok (of_decimal neg v (0 - Z.of_nat (length d2))).
Proof.
  intros Hne H1 H2 Hv. unfold of_text.
  rewrite strip_padded.
  2: { apply Forall_app. split; [apply sign_text_no_space|].
       apply Forall_app. split; [apply digits_no_space; exact H1|].
       constructor; [reflexivity|apply digits_no_space; exact H2]. }
  destruct d1 as [|c d1]; [congruence|].
  assert (Int.is_digit c = true) as Hc by (inversion H1; assumption).
  destruct (digit_not_space c Hc) as (_ & _ & _ & _ & _ & Hlow & Hi & Hn).
  assert (Int.take_sign (sign_text neg ++ (c :: d1) ++ "."%char :: d2) =
          (neg, (c :: d1) ++ "."%char :: d2)) as ->.
  { destruct neg; [reflexivity|]. apply (take_sign_digit c _ Hc). }
  cbn [app map]. rewrite Hlow.
  rewrite !bool_decide_eq_false_2.
  2: { intros [= E]. congruence. }
  2: { intros [= E]. congruence. }
  2: { intros [= E]. congruence. }
  cbn [orb].
  change (c :: d1 ++ "."%char :: d2) with ((c :: d1) ++ "."%char :: d2).
  rewrite span_digits_stop by (assumption || reflexivity).
  rewrite Ascii.eqb_refl, span_digits_all by assumption.
  cbn [app] in *. rewrite Hv. reflexivity.
Qed.

Lemma digits_val_zeros (z : nat) (s : text) :
  Int.digits_val 0 (replicate z "0"%char ++ s) = Int.digits_val 0 s.
Proof. induction z as [|z IH]; [reflexivity|exact IH]. Qed.

Lemma zeros_digits (z : nat) : all_digits (replicate z "0"%char).
Proof. induction z; constructor; [reflexivity|assumption]. Qed.

(** The digits of [fixed], before and after the point. *)
Lemma fixed_parts (p : nat) (r : N) :
  1 <= p ->
  exists d1 d2,
    fixed p r = d1 ++ "."%char :: d2 /\
    d1 = Int.str (r / 10 ^ N.of_nat p) /\
    all_digits d2 /\ length d2 = p /\
    Int.digits_val 0 (d1 ++ d2) = Some r.
Proof.
  intros Hp. destruct p as [|p]; [lia|].
  unfold fixed. set (q := N.of_nat (S p)).
  set (fr := Int.str (r mod 10 ^ q)).
  assert (0 < 10 ^ q)%N as Hpow by (apply N.neq_0_lt_0, N.pow_nonzero; lia).
  assert (length fr <= S p) as Hfr.
  { apply str_length; [|lia]. apply N.mod_upper_bound. lia. }
  eexists _, _. split; [reflexivity|]. split; [reflexivity|].
  split; [|split].
  - apply Forall_app. split; [apply zeros_digits|apply str_digits].
  - rewrite length_app, length_replicate. lia.
  - rewrite digits_val_app, str_val.
    rewrite (digits_val_shift _ (r mod 10 ^ q)).
    + f_equal. rewrite length_app, length_replicate.
      replace (N.of_nat (S p - length fr + length fr)) with q by (unfold q; lia).
      pose proof (N.div_mod r (10 ^ q) ltac:(lia)). lia.
    + rewrite digits_val_zeros. apply str_val.
Qed.

Lemma fixed_no_space (p : nat) (r : N) : no_space (fixed p r).
Proof.
  unfold fixed. destruct p as [|p]; [apply digits_no_space, str_digits|].
  apply Forall_app. split; [apply digits_no_space, str_digits|].
  constructor; [reflexivity|]. apply digits_no_space.
  apply Forall_app. split; [apply zeros_digits|apply str_digits].
Qed.

Lemma format_f_no_space (p : nat) (x : float) : no_space (format_f p x).
Proof.
  destruct x as [|neg|neg m e]; simpl.
  - repeat constructor.
  - apply Forall_app. split; [apply sign_text_no_space|repeat constructor].
  - apply Forall_app. split; [apply sign_text_no_space|apply fixed_no_space].
Qed.

Lemma fixed_bound (p : nat) (r : N) :
  1 <= p -> p <= 15 -> length (fixed p r) <= 16 -> (r < 2 ^ 52)%N.
Proof.
  intros Hp Hp15 Hlen.
  destruct (fixed_parts p r Hp) as (d1 & d2 & E & -> & _ & Hd2 & _).
  rewrite E, length_app in Hlen. cbn [length] in Hlen.
  assert (length (Int.str (r / 10 ^ N.of_nat p)) <= 15 - p) as H by lia.
  apply str_length_inv in H.
  assert (0 < 10 ^ N.of_nat p)%N as Hpow by (apply N.neq_0_lt_0, N.pow_nonzero; lia).
  pose proof (N.div_mod r (10 ^ N.of_nat p) ltac:(lia)) as Hdm.
  pose proof (N.mod_upper_bound r (10 ^ N.of_nat p) ltac:(lia)) as Hmod.
  assert (10 ^ N.of_nat (15 - p) * 10 ^ N.of_nat p = 10 ^ 15)%N as Hsplit.
  { rewrite <- N.pow_add_r. f_equal. lia. }
  assert (r < 10 ^ 15)%N by nia.
  eapply N.lt_trans; [eassumption|reflexivity].
Qed.

(** A number written with [p] decimals in a field of at most 16
    characters is read back as a number that is written the same. *)
Lemma float_roundtrip (w p : nat) (x : float) :
  1 <= p -> p <= 15 -> length (format_f p x) <= 16 ->
  exists x',
    of_text (Str.rjust w (format_f p x)) = Ok x' /\
    format_f p x' = format_f p x.
Proof.
  intros Hp Hp15 Hlen. unfold Str.rjust.
  destruct x as [|neg|neg m e].
  - exists Nan. split; [|reflexivity]. unfold of_text.
    rewrite strip_padded by apply (format_f_no_space p Nan). reflexivity.
  - exists (Inf neg). split; [|reflexivity]. unfold of_text.
    rewrite strip_padded by apply (format_f_no_space p (Inf neg)).
    destruct neg; reflexivity.
  - cbn [format_f] in *. set (r := scaled p m e) in *.
    assert (r < 2 ^ 52)%N as Hr.
    { apply (fixed_bound p r Hp Hp15). rewrite length_app in Hlen. lia. }
    destruct (fixed_parts p r Hp) as (d1 & d2 & E & Hd1 & Hd2 & Hl2 & Hv).
    exists (of_ratio neg (Z.of_N r) (10 ^ Z.of_nat p)).
    split; [|apply format_of_ratio; assumption].
    rewrite E, (of_text_literal _ neg d1 d2 r); try assumption.
    + unfold of_decimal. rewrite Hl2.
      assert ((0 <=? 0 - Z.of_nat p)%Z = false) as -> by lia.
      do 3 f_equal. lia.
    + subst d1. apply str_nonempty.
    + subst d1. apply str_digits.
Qed.
(** ** Fields of a written line *)

Lemma slice_field (a b : nat) (pre s rest : text) :
  length pre = a -> length s = b - a ->
  Str.slice a b (pre ++ s ++ rest) = s.
Proof.
  intros Ha Hs. unfold Str.slice.
  rewrite drop_app_length' by (symmetry; exact Ha).
  apply take_app_length'. symmetry. exact Hs.
Qed.

Lemma rjust_exact (w : nat) (s : text) : length s <= w -> length (Str.rjust w s) = w.
Proof. intros H. rewrite rjust_length. lia. Qed.

Lemma ljust_exact (w : nat) (s : text) : length s <= w -> length (Str.ljust w s) = w.
Proof. intros H. rewrite ljust_length. lia. Qed.

(** An atom line as [write_gro] writes it, with its newline, read by
    the loop of [parse_gro_lines]. *)
Lemma parse_atom_format_atom (res_n : N) (res_name at_name : text) (serial : N)
    (x y z : float) :
  length (Int.str res_n) <= 5 -> length res_name <= 5 -> length at_name <= 5 ->
  length (Int.str serial) <= 5 ->
  length (format_f 3 x) <= 8 -> length (format_f 3 y) <= 8 ->
  length (format_f 3 z) <= 8 ->
  let line := format_atom res_n res_name at_name serial x y z ++ [Str.newline] in
  length line = 45 /\
  exists x' y' z',
    parse_atom line =
      Ok (Z.of_N res_n, Str.strip (Str.ljust 5 res_name),
          Str.strip (Str.rjust 5 at_name), x', y', z') /\
    same_rendering 3 x x' /\ same_rendering 3 y y' /\ same_rendering 3 z z'.
Proof.
  intros Hn Hrn Han Hs Hx Hy Hz line.
  pose proof (rjust_exact 5 _ Hn) as L1. pose proof (ljust_exact 5 _ Hrn) as L2.
  pose proof (rjust_exact 5 _ Han) as L3. pose proof (rjust_exact 5 _ Hs) as L4.
  pose proof (rjust_exact 8 _ Hx) as L5. pose proof (rjust_exact 8 _ Hy) as L6.
  pose proof (rjust_exact 8 _ Hz) as L7.
  assert (length line = 45) as Hlen.
  { unfold line, format_atom. rewrite !length_app. cbn [length]. lia. }
  split; [exact Hlen|].
  destruct (float_roundtrip 8 3 x) as (x' & Hx' & Ex); [lia|lia|lia|].
  destruct (float_roundtrip 8 3 y) as (y' & Hy' & Ey); [lia|lia|lia|].
  destruct (float_roundtrip 8 3 z) as (z' & Hz' & Ez); [lia|lia|lia|].
  exists x', y', z'. split; [|repeat split; assumption].
  rewrite parse_atom_short by lia. unfold position_fields.
  set (F1 := Str.rjust 5 (Int.str res_n)) in *.
  set (F2 := Str.ljust 5 res_name) in *.
  set (F3 := Str.rjust 5 at_name) in *.
  set (F4 := Str.rjust 5 (Int.str serial)) in *.
  set (F5 := Str.rjust 8 (format_f 3 x)) in *.
  set (F6 := Str.rjust 8 (format_f 3 y)) in *.
  set (F7 := Str.rjust 8 (format_f 3 z)) in *.
  assert (line = F1 ++ F2 ++ F3 ++ F4 ++ F5 ++ F6 ++ F7 ++ [Str.newline]) as E.
  { unfold line, format_atom. rewrite <- !app_assoc. reflexivity. }
  assert (Str.slice 0 5 line = F1) as ->.
  { rewrite E. apply (slice_field 0 5 []); [reflexivity|exact L1]. }
  assert (Str.slice 5 10 line = F2) as ->.
  { rewrite E. apply slice_field; [exact L1|exact L2]. }
  assert (Str.slice 10 15 line = F3) as ->.
  { rewrite E. rewrite (app_assoc F1). apply slice_field; [|exact L3].
    rewrite length_app. lia. }
  assert (Str.slice 15 20 line = F4) as ->.
  { rewrite E. rewrite (app_assoc F2), (app_assoc F1). apply slice_field; [|exact L4].
    rewrite !length_app. lia. }
  assert (Str.slice 20 28 line = F5) as ->.
  { rewrite E. rewrite (app_assoc F3), (app_assoc F2), (app_assoc F1).
    apply slice_field; [|exact L5]. rewrite !length_app. lia. }
  assert (Str.slice 28 36 line = F6) as ->.
  { rewrite E. rewrite (app_assoc F4), (app_assoc F3), (app_assoc F2), (app_assoc F1).
    apply slice_field; [|exact L6]. rewrite !length_app. lia. }
  assert (Str.slice 36 44 line = F7) as ->.
  { rewrite E.
    rewrite (app_assoc F5), (app_assoc F4), (app_assoc F3), (app_assoc F2), (app_assoc F1).
    apply slice_field; [|exact L7]. rewrite !length_app. lia. }
  unfold F1, F4. rewrite !int_rjust_str. cbn [bind].
  rewrite Hx', Hy', Hz'. reflexivity.
Qed.

(** ** The box line *)

Lemma split_from_token (cur tok s : text) :
  no_space tok -> Str.split_from cur (tok ++ s) = Str.split_from (rev tok ++ cur) s.
Proof.
  intros H. revert cur. induction H as [|c tok Hc _ IH]; intros cur; simpl.
  - reflexivity.
  - rewrite Hc, IH, <- app_assoc. reflexivity.
Qed.

Lemma split_from_padding (n : nat) (s : text) :
  Str.split_from [] (replicate n Str.space ++ s) = Str.split_from [] s.
Proof. induction n as [|n IH]; [reflexivity|exact IH]. Qed.

Lemma split_from_close (tok : text) (n : nat) (s : text) :
  tok <> [] -> 1 <= n ->
  Str.split_from (rev tok) (replicate n Str.space ++ s) = tok :: Str.split_from [] s.
Proof.
  intros Htok Hn. destruct n as [|n]; [lia|]. simpl.
  destruct (rev tok) as [|c r] eqn:E.
  - exfalso. apply Htok. rewrite <- (rev_involutive tok), E. reflexivity.
  - rewrite <- E, rev_involutive. f_equal. apply split_from_padding.
Qed.

Lemma split_three (w : nat) (a b c : text) :
  no_space a -> no_space b -> no_space c ->
  a <> [] -> b <> [] -> c <> [] ->
  length b < w -> length c < w ->
  Str.split (Str.rjust w a ++ Str.rjust w b ++ Str.rjust w c ++ [Str.newline])
  = [a; b; c].
Proof.
  intros Ha Hb Hc Na Nb Nc Lb Lc. unfold Str.split, Str.rjust.
  rewrite <- !app_assoc.
  rewrite split_from_padding, split_from_token, app_nil_r by exact Ha.
  rewrite split_from_close by (assumption || lia). f_equal.
  rewrite split_from_token, app_nil_r by exact Hb.
  rewrite split_from_close by (assumption || lia). f_equal.
  rewrite split_from_token, app_nil_r by exact Hc.
  cbn [Str.split_from]. change (Str.is_space Str.newline) with true. cbn iota.
  destruct (rev c) as [|ch r] eqn:E.
  - exfalso. apply Nc. rewrite <- (rev_involutive c), E. reflexivity.
  - rewrite <- E, rev_involutive. reflexivity.
Qed.

Lemma fixed_nonempty (p : nat) (r : N) : fixed p r <> [].
Proof.
  unfold fixed. destruct p as [|p]; [apply str_nonempty|].
  intros H. apply app_eq_nil in H as [_ H]. discriminate.
Qed.

Lemma format_f_nonempty (p : nat) (x : float) : format_f p x <> [].
Proof.
  destruct x as [|neg|neg m e]; cbn [format_f].
  - discriminate.
  - intros H. apply app_eq_nil in H as [_ H]. discriminate.
  - intros H. apply app_eq_nil in H as [_ H]. exact (fixed_nonempty _ _ H).
Qed.

(** The box line as [write_gro] writes it, with its newline, read by
    the [else] branch of the loop. *)
Lemma parse_box_format_box (a b c : float) :
  length (format_f 5 a) <= 10 -> length (format_f 5 b) < 10 ->
  length (format_f 5 c) < 10 ->
  let line := format_box a b c ++ [Str.newline] in
  length line = 31 /\
  exists a' b' c',
    parse_box (Str.split line) =
      Ok ((a', zero, zero), (zero, b', zero), (zero, zero, c')) /\
    same_rendering 5 a a' /\ same_rendering 5 b b' /\ same_rendering 5 c c'.
Proof.
  intros Ha Hb Hc line. split.
  - unfold line, format_box. rewrite !length_app, !rjust_exact by lia. reflexivity.
  - destruct (float_roundtrip 0 5 a) as (a' & Ha' & Ea); [lia|lia|lia|].
    destruct (float_roundtrip 0 5 b) as (b' & Hb' & Eb); [lia|lia|lia|].
    destruct (float_roundtrip 0 5 c) as (c' & Hc' & Ec); [lia|lia|lia|].
    exists a', b', c'. split; [|repeat split; assumption].
    unfold line, format_box. rewrite <- !app_assoc.
    rewrite split_three;
      try apply format_f_no_space; try apply format_f_nonempty; try assumption.
    unfold parse_box. cbn [map_result].
    change (format_f 5 a) with (Str.rjust 0 (format_f 5 a)) at 1.
    change (format_f 5 b) with (Str.rjust 0 (format_f 5 b)) at 1.
    change (format_f 5 c) with (Str.rjust 0 (format_f 5 c)) at 1.
    rewrite Ha', Hb', Hc'. reflexivity.
Qed.

(** ** Lines of a file *)

Lemma no_space_no_newline (s : text) : no_space s -> no_newline s.
Proof.
  intros H. eapply Forall_impl; [exact H|]. intros c Hc.
  destruct (Ascii.eqb_spec c Str.newline) as [->|]; [discriminate Hc|reflexivity].
Qed.

Lemma readlines_from_line (cur l rest : text) :
  no_newline l ->
  Str.readlines_from cur (l ++ Str.newline :: rest) =
  (rev cur ++ l ++ [Str.newline]) :: Str.readlines_from [] rest.
Proof.
  intros H. revert cur. induction H as [|c l Hc _ IH]; intros cur.
  - cbn [app Str.readlines_from]. rewrite Ascii.eqb_refl.
    cbn [rev]. reflexivity.
  - cbn [app Str.readlines_from]. rewrite Hc, IH. cbn [rev].
    rewrite <- !app_assoc. reflexivity.
Qed.

Lemma readlines_concat (lines : list text) :
  Forall no_newline lines ->
  Str.readlines (concat ((fun l => l ++ [Str.newline]) <$> lines)) =
  (fun l => l ++ [Str.newline]) <$> lines.
Proof.
  unfold Str.readlines. induction 1 as [|l lines Hl _ IH]; [reflexivity|].
  cbn [fmap list_fmap concat]. rewrite <- app_assoc. cbn [app].
  rewrite readlines_from_line by exact Hl. cbn [rev app]. f_equal. exact IH.
Qed.

Lemma padding_no_newline (n : nat) : no_newline (replicate n Str.space).
Proof. induction n; constructor; [reflexivity|assumption]. Qed.

Lemma rjust_no_newline (w : nat) (s : text) : no_newline s -> no_newline (Str.rjust w s).
Proof. intros H. apply Forall_app. split; [apply padding_no_newline|exact H]. Qed.

Lemma ljust_no_newline (w : nat) (s : text) : no_newline s -> no_newline (Str.ljust w s).
Proof. intros H. apply Forall_app. split; [exact H|apply padding_no_newline]. Qed.

Lemma number_no_newline (w : nat) (n : N) : no_newline (Str.rjust w (Int.str n)).
Proof. apply rjust_no_newline, no_space_no_newline, digits_no_space, str_digits. Qed.

Lemma float_no_newline (w p : nat) (x : float) :
  no_newline (Str.rjust w (format_f p x)).
Proof. apply rjust_no_newline, no_space_no_newline, format_f_no_space. Qed.

Lemma format_atom_no_newline res_n res_name at_name serial x y z :
  no_newline res_name -> no_newline at_name ->
  no_newline (format_atom res_n res_name at_name serial x y z).
Proof.
  intros H1 H2. unfold format_atom, no_newline.
  rewrite !Forall_app. repeat split.
  - apply number_no_newline.
  - apply ljust_no_newline. exact H1.
  - apply rjust_no_newline. exact H2.
  - apply number_no_newline.
  - apply float_no_newline.
  - apply float_no_newline.
  - apply float_no_newline.
Qed.

Lemma format_box_no_newline a b c : no_newline (format_box a b c).
Proof.
  unfold format_box, no_newline. rewrite !Forall_app.
  repeat split; apply float_no_newline.
Qed.

Lemma int_newline (s : text) : Int.int (s ++ [Str.newline]) = Int.int s.
Proof. unfold Int.int. rewrite strip_newline. reflexivity. Qed.
(** ** Writing, then reading *)

Lemma gro_lines_shape (sys : System) (lines : list text) :
  gro_lines sys = Ok lines ->
  exists (L : list text) (b : matrix),
    lines = header sys ++ L ++ [format_box b.1.1.1.1 b.1.2.1.2 b.2.2] /\
    box_vectors sys = Some b /\
    length L = length (visited sys (n_mol sys)) /\
    forall p line,
      L !! p = Some line ->
      exists k, visited sys (n_mol sys) !! p = Some k /\ atom_line_of sys p k line.
Proof.
  intros Hok. pose proof (gro_lines_outcome sys) as H. rewrite Hok in H.
  destruct H as (L & b & Hlines & Hb & (L' & HL' & _ & Hlen & Hat) & _).
  cbn [snd] in HL'. apply app_inv_head in HL'. subst L'.
  exists L, b. split; [exact Hlines|]. split; [exact Hb|]. split; [exact Hlen|].
  intros p line Hline.
  destruct (lookup_lt_is_Some_2 (visited sys (n_mol sys)) p) as [k Hk].
  { rewrite <- Hlen. eapply lookup_lt_Some; eassumption. }
  exists k. split; [exact Hk|]. apply Hat; assumption.
Qed.

Lemma map_result_Forall2 {A B C} (f : A -> result B) (Q : C -> B -> Prop)
    (xs : list A) (cs : list C) :
  Forall2 (fun x c => exists y, f x = Ok y /\ Q c y) xs cs ->
  exists ys, map_result f xs = Ok ys /\ Forall2 Q cs ys.
Proof.
  induction 1 as [|x c xs cs (y & Hy & Hq) _ (ys & Hys & IH)].
  - exists []. split; [reflexivity|constructor].
  - exists (y :: ys). simpl. rewrite Hy, Hys. split; [reflexivity|].
    constructor; assumption.
Qed.

Lemma fits_complete (sys : System) :
  fits sys -> ~ lacks_groname sys /\ ~ lacks_grotype sys.
Proof.
  intros (_ & Hm & Ha & _). split.
  - intros (i & entry & He & Hnone).
    destruct (Hm i entry He) as (name & Hname & _). congruence.
  - intros (k & entry & He & Hnone).
    destruct (Ha k entry He) as (name & Hname & _). congruence.
Qed.

(** Every atom line of a system that fits is read back as its atom. *)
Lemma atom_line_read (sys : System) (p : nat) (line : text) (pos : vec3) :
  fits sys ->
  atom_line_of sys p p line ->
  r_array sys !! p = Some pos ->
  no_newline line /\ length (line ++ [Str.newline]) = 45 /\
  exists r, parse_atom (line ++ [Str.newline]) = Ok r /\
            same_position pos (f3 r, f4 r, f5 r).
Proof.
  intros (Hn & Hm & Ha & Hr & _)
    (i & o & n & mentry & res_name & aentry & at_name & x & y & z &
     Ho & Hcount & Hk & Hi & Hme & Hname & Hae & Hat & Hpos & ->) Hp.
  rewrite Hpos in Hp. injection Hp as <-.
  destruct (Hm i mentry Hme) as (name & E & Hlen1 & Hnl1).
  rewrite Hname in E. injection E as <-.
  destruct (Ha p aentry Hae) as (name & E & Hlen2 & Hnl2).
  rewrite Hat in E. injection E as <-.
  destruct (Hr p x y z Hpos) as (Hx & Hy & Hz).
  split; [apply format_atom_no_newline; assumption|].
  assert (length (Int.str (N.of_nat (i + 1))) <= 5) as H1.
  { apply str_length; [|lia]. change (10 ^ N.of_nat 5)%N with 100000%N. lia. }
  assert (length (Int.str (N.of_nat (p + 1) mod 99999)) <= 5) as H4.
  { apply str_length; [|lia]. change (10 ^ N.of_nat 5)%N with 100000%N.
    pose proof (N.mod_upper_bound (N.of_nat (p + 1)) 99999 ltac:(lia)). lia. }
  destruct (parse_atom_format_atom (N.of_nat (i + 1)) res_name at_name
              (N.of_nat (p + 1) mod 99999) x y z H1 Hlen1 Hlen2 H4 Hx Hy Hz)
    as (Hlen & x' & y' & z' & Hparse & Ex & Ey & Ez).
  split; [exact Hlen|].
  eexists. split; [exact Hparse|]. repeat split; assumption.
Qed.

Section RoundTrip.

Variable gro_to_cl : gmap text text.
Variable make_formula : list text -> text.

Lemma header_no_newline (sys : System) : Forall no_newline (header sys).
Proof.
  unfold header. constructor; [|constructor; [apply number_no_newline|constructor]].
  unfold no_newline, txt. cbn [list_ascii_of_string]. repeat constructor.
Qed.

(** C6, amended.  For a system whose molecules are runs of consecutive
    atoms, whose box is set and whose names and numbers fit their
    fields, [write] succeeds, and [read] of the file then returns a
    system with as many atoms, each at a position that is written with
    three decimals as the original is, and with a diagonal box whose
    three lengths are written with five decimals as the diagonal of the
    original box is. *)
Theorem write_then_read (sys : System) (filename : string) (fs : disk) (b : matrix) :
  well_formed sys ->
  fits sys ->
  box_vectors sys = Some b ->
  exists (fs' : disk) (sys' : System) (a' b' c' : float),
    GromacsIO.write filename "system" sys fs = (fs', Ok tt) /\
    GromacsIO.read gro_to_cl make_formula filename "system" fs' = Ok (Some sys') /\
    Forall2 same_position (r_array sys) (r_array sys') /\
    box_vectors sys' =
      Some ((a', zero, zero), (zero, b', zero), (zero, zero, c')) /\
    same_rendering 5 b.1.1.1.1 a' /\ same_rendering 5 b.1.2.1.2 b' /\
    same_rendering 5 b.2.2 c'.
Proof.
  intros Hwf Hfits Hbox.
  destruct (fits_complete sys Hfits) as [Hg Ht].
  destruct (gro_lines_complete_Ok sys Hwf Hg Ht) as [lines Hlines];
    [congruence|].
  destruct (gro_lines_shape sys lines Hlines) as (L & b0 & -> & Hb0 & Hlen & Hat).
  rewrite Hbox in Hb0. injection Hb0 as <-.
  pose proof Hwf as [_ _ _ _ Hra Hv].
  rewrite Hv, length_seq in Hlen.
  (* every atom line is read back as its atom *)
  assert (Forall2 (fun line pos =>
            no_newline line /\ length (line ++ [Str.newline]) = 45 /\
            exists r, parse_atom (line ++ [Str.newline]) = Ok r /\
                      same_position pos (f3 r, f4 r, f5 r)) L (r_array sys)) as HL.
  { apply Forall2_same_length_lookup_2; [lia|].
    intros p line pos Hline Hpos.
    destruct (Hat p line Hline) as (k & Hk & Hatom).
    rewrite Hv in Hk. apply lookup_seq in Hk as [-> _].
    exact (atom_line_read sys p line pos Hfits Hatom Hpos). }
  set (nl := fun l : text => l ++ [Str.newline]).
  assert (Forall atom_length (nl <$> L)) as Hatoms.
  { apply Forall_fmap, Forall_forall. intros line Hin.
    apply list_elem_of_lookup in Hin as [p Hp].
    destruct (Forall2_lookup_l _ _ _ _ _ HL Hp) as (pos & _ & _ & H45 & _).
    left. exact H45. }
  assert (Forall no_newline L) as HnlL.
  { apply Forall_forall. intros line Hin.
    apply list_elem_of_lookup in Hin as [p Hp].
    destruct (Forall2_lookup_l _ _ _ _ _ HL Hp) as (pos & _ & H & _). exact H. }
  destruct (map_result_Forall2 parse_atom
              (fun pos r => same_position pos (f3 r, f4 r, f5 r))
              (nl <$> L) (r_array sys)) as (rs & Hrs & Hsame).
  { apply Forall2_fmap_l. eapply Forall2_impl; [exact HL|].
    intros line pos (_ & _ & H). exact H. }
  (* the box line *)
  destruct Hfits as (_ & _ & _ & _ & Hfb).
  destruct (Hfb b Hbox) as (Hba & Hbb & Hbc).
  destruct (parse_box_format_box b.1.1.1.1 b.1.2.1.2 b.2.2 Hba Hbb Hbc)
    as (Hlen31 & a' & b' & c' & Hpbox & Ea & Eb & Ec).
  (* the file *)
  set (all := header sys ++ L ++ [format_box b.1.1.1.1 b.1.2.1.2 b.2.2]) in *.
  assert (Forall no_newline all) as Hall.
  { unfold all. rewrite !Forall_app. split; [apply header_no_newline|].
    split; [exact HnlL|]. repeat constructor. apply format_box_no_newline. }
  destruct (assemble_ok gro_to_cl make_formula rs
              ((a', zero, zero), (zero, b', zero), (zero, zero, c')))
    as (names & _ & _ & Hasm).
  match type of Hasm with _ = Ok ?s => eexists _, s, a', b', c' end.
  split.
  { unfold GromacsIO.write, write_gro. cbn [bool_decide decide_rel].
    rewrite bool_decide_eq_true_2 by reflexivity.
    rewrite Hlines. reflexivity. }
  split; [|split; [|split; [reflexivity|repeat split; assumption]]].
  - unfold nl in *. clear nl.
    unfold GromacsIO.read. rewrite bool_decide_eq_true_2 by reflexivity.
    unfold GromacsIO.open_read. rewrite lookup_insert_eq. cbn [bind].
    rewrite (readlines_concat all Hall).
    unfold all, header. rewrite !fmap_app. cbn [fmap list_fmap app].
    unfold parse_gro_lines. cbn [snd].
    rewrite int_newline, int_rjust_str. cbn [bind].
    change (list_fmap text text (fun l : text => l ++ [Str.newline]) L)
      with ((fun l : text => l ++ [Str.newline]) <$> L).
    rewrite read_lines_atoms by exact Hatoms.
    rewrite Hrs. cbn [bind app].
    rewrite read_lines_box by lia.
    rewrite Hpbox. cbn [bind fst snd].
    rewrite Hasm. reflexivity.
  - cbn [r_array from_arrays].
    apply Forall2_fmap_r. exact Hsame.
Qed.

End RoundTrip.
(** ** When [unique] gives the group starts *)

Lemma increasing_cons (x y : Z) (l : list Z) :
  increasing (x :: y :: l) = (x <? y)%Z && increasing (y :: l).
Proof. reflexivity. Qed.

Lemma ascending_cons (x y : Z) (l : list Z) :
  ascending (x :: y :: l) = (x <=? y)%Z && ascending (y :: l).
Proof. reflexivity. Qed.

Lemma insert_sorted (x : Z * nat) (l : list (Z * nat)) :
  StronglySorted by_value l -> StronglySorted by_value (Np.insert x l).
Proof.
  induction 1 as [|y l Hl IH Hy]; simpl.
  - repeat constructor.
  - destruct (x.1 <=? y.1)%Z eqn:E.
    + apply Z.leb_le in E. constructor; [constructor; assumption|].
      constructor; [exact E|]. eapply Forall_impl; [exact Hy|].
      intros z Hz. unfold by_value in *. lia.
    + apply Z.leb_gt in E. constructor; [exact IH|].
      apply insert_Forall; [unfold by_value; lia|exact Hy].
Qed.

Lemma sort_indexed_sorted (ar : list Z) : StronglySorted by_value (Np.sort_indexed ar).
Proof.
  unfold Np.sort_indexed. induction (zip ar (seq 0 (length ar))) as [|x l IH]; simpl.
  - constructor.
  - apply insert_sorted. exact IH.
Qed.

Lemma zip_seq_at_index (ar : list Z) :
  Forall (at_index ar) (zip ar (seq 0 (length ar))).
Proof.
  apply Forall_forall. intros [v i] H.
  apply list_elem_of_lookup in H as [j Hj].
  apply lookup_zip_with_Some in Hj as (v' & i' & [= <- <-] & Hv & Hi).
  apply lookup_seq in Hi as [-> _]. exact Hv.
Qed.

Lemma sort_indexed_at_index (ar : list Z) : Forall (at_index ar) (Np.sort_indexed ar).
Proof.
  unfold Np.sort_indexed. pose proof (zip_seq_at_index ar) as H.
  induction H as [|x l Hx _ IH]; simpl; [constructor|].
  apply insert_Forall; assumption.
Qed.

Lemma at_index_determined (ar : list Z) (l l' : list (Z * nat)) :
  Forall (at_index ar) l -> Forall (at_index ar) l' -> l.*2 = l'.*2 -> l = l'.
Proof.
  intros H. revert l'. induction H as [|[v i] l Hx _ IH]; intros l' H' E.
  - destruct l'; [reflexivity|discriminate].
  - destruct H' as [|[v' i'] l' Hx' H']; [discriminate|].
    simpl in E. injection E as <- E.
    unfold at_index in Hx, Hx'. simpl in *.
    rewrite Hx in Hx'. injection Hx' as <-.
    f_equal. apply IH; assumption.
Qed.

Lemma run_heads_increasing (prev : option Z) (aux : list (Z * nat)) :
  StronglySorted by_value aux ->
  (forall p, prev = Some p -> Forall (fun x => (p <= x.1)%Z) aux) ->
  increasing (bound prev ++ (Np.run_heads prev aux).*1) = true.
Proof.
  intros H. revert prev. induction H as [|[v i] aux Haux IH Hv]; intros prev Hprev.
  - destruct prev; reflexivity.
  - cbn [Np.run_heads].
    assert (forall p, Some v = Some p -> Forall (fun x => (p <= x.1)%Z) aux) as Hnext.
    { intros p [= <-]. exact Hv. }
    specialize (IH (Some v) Hnext). cbn [bound app] in IH.
    destruct (bool_decide (prev = Some v)) eqn:E.
    + apply bool_decide_eq_true in E. subst prev. exact IH.
    + apply bool_decide_eq_false in E.
      destruct prev as [p|]; cbn [bound app fmap list_fmap fst]; [|exact IH].
      rewrite increasing_cons, IH, andb_true_r. apply Z.ltb_lt.
      specialize (Hprev p eq_refl). inversion Hprev as [|? ? Hp _]; subst.
      simpl in Hp. assert (p <> v) by congruence. lia.
Qed.

Lemma heads_increasing_ascending (prev : option Z) (ar : list Z) (idx : list nat) :
  length idx = length ar ->
  increasing (bound prev ++ (Np.run_heads prev (zip ar idx)).*1) = true ->
  ascending (bound prev ++ ar) = true.
Proof.
  revert prev idx. induction ar as [|v ar IH]; intros prev idx Hlen H.
  - destruct prev; reflexivity.
  - destruct idx as [|i idx]; [discriminate|]. injection Hlen as Hlen.
    cbn [zip zip_with Np.run_heads] in H.
    destruct (bool_decide (prev = Some v)) eqn:E.
    + apply bool_decide_eq_true in E. subst prev.
      specialize (IH (Some v) idx Hlen H). cbn [bound app] in *.
      rewrite ascending_cons, IH, andb_true_r. apply Z.leb_le. lia.
    + specialize (IH (Some v) idx Hlen). cbn [bound app] in IH.
      destruct prev as [p|]; cbn [bound app fmap list_fmap fst] in *.
      * rewrite increasing_cons in H.
        apply andb_true_iff in H as [Hpv H].
        rewrite ascending_cons, (IH H), andb_true_r. apply Z.leb_le. apply Z.ltb_lt in Hpv. lia.
      * exact (IH H).
Qed.

Lemma unique_group_starts_ascending (ar : list Z) :
  (Np.unique ar).2 = group_starts ar -> ascending ar = true.
Proof.
  intros H. unfold Np.unique, group_starts in H. cbn [snd] in H.
  rewrite <- run_heads_zip in H.
  apply at_index_determined with (ar := ar) in H.
  - apply (heads_increasing_ascending None ar (seq 0 (length ar)));
      [apply length_seq|].
    cbn [bound app]. rewrite <- H.
    apply (run_heads_increasing None); [apply sort_indexed_sorted|].
    intros p [=].
  - apply run_heads_Forall, sort_indexed_at_index.
  - apply run_heads_Forall, zip_seq_at_index.
Qed.

(** ** Molecule offsets of the reader *)

(** The molecule offsets of the system are the indices that [unique]
    returns for the molecule indices of the records.  They are the
    offsets at which the molecule index changes from one record to the
    next exactly when the molecule indices never decrease through the
    file: on every other file the reader and the loops that take a
    molecule from its offset to the next one disagree. *)
Theorem mol_indices_group_starts (gro_to_cl : gmap text text)
    (make_formula : list text -> text) (datalist : list record)
    (box : matrix) (sys : System) :
  assemble gro_to_cl make_formula datalist (Some box) = Ok sys ->
  mol_indices sys = (Np.unique (f0 <$> datalist)).2 /\
  (ascending (f0 <$> datalist) = true <->
   mol_indices sys = group_starts (f0 <$> datalist)).
Proof.
  intros Hsys.
  destruct (assemble_ok gro_to_cl make_formula datalist box) as (names & _ & _ & E).
  rewrite E in Hsys. injection Hsys as <-. cbn [mol_indices from_arrays].
  split; [reflexivity|]. split.
  - apply unique_ascending.
  - apply unique_group_starts_ascending.
Qed.

(** * The properties on the sample data *)

Example water_is_read :
  (parse_gro_lines sample_table sample_formula water_lines).2 = Ok water.
Proof. vm_compute. reflexivity. Qed.

Example water_is_written : gro_lines water = Ok water_written.
Proof. vm_compute. reflexivity. Qed.

Lemma well_formed_water : well_formed water.
Proof. split; reflexivity. Defined.

(** C1.  The reader on a file where the molecule index 1 comes back
    after 2: the molecule index changes at the offsets 0, 2 and 4, but
    the reader returns the offsets 0 and 2.  The loop of the formulas
    takes every molecule from its offset to the next one, so the last
    atom, of molecule 1, is counted in the second molecule ([OHH]), and
    the writer gives it the residue number 2.  On a file where the
    molecule indices go down, 2 2 1 1, the offsets are 2 and 0: the
    first molecule is empty and the second one holds the four atoms. *)
Theorem reused_index_misgroups_atoms :
  (exists datalist box sys lines,
     read_lines (drop 2 reused_index_lines) [] = Ok (datalist, Some box) /\
     f0 <$> datalist = [1; 1; 2; 2; 1]%Z /\
     group_starts (f0 <$> datalist) = [0; 2; 4] /\
     (parse_gro_lines sample_table sample_formula reused_index_lines).2 = Ok sys /\
     mol_indices sys = [0; 2] /\
     mol_formula sys = [txt "OH"; txt "OHH"] /\
     mol_n_atoms sys = [2; 3] /\
     gro_lines sys = Ok lines /\
     lines !! 6 = Some (txt "    2SOL    HW2    5  -0.033   0.094   0.000")) /\
  (exists datalist box sys,
     read_lines (drop 2 reversed_index_lines) [] = Ok (datalist, Some box) /\
     f0 <$> datalist = [2; 2; 1; 1]%Z /\
     group_starts (f0 <$> datalist) = [0; 2] /\
     (parse_gro_lines sample_table sample_formula reversed_index_lines).2 = Ok sys /\
     mol_indices sys = [2; 0] /\
     mol_formula sys = [[]; txt "OHOH"]).
Proof.
  split.
  - eexists _, _, _, _.
    split; [vm_compute; reflexivity|].
    split; [vm_compute; reflexivity|].
    split; [reflexivity|].
    split; [vm_compute; reflexivity|].
    split; [reflexivity|]. split; [reflexivity|]. split; [reflexivity|].
    split; [vm_compute; reflexivity|]. reflexivity.
  - eexists _, _, _.
    split; [vm_compute; reflexivity|].
    split; [vm_compute; reflexivity|].
    split; [reflexivity|].
    split; [vm_compute; reflexivity|].
    split; reflexivity.
Qed.

Lemma mol_indices_group_starts_witness :
  assemble sample_table sample_formula grouped_records (Some unit_box)
    = Ok grouped_system /\
  mol_indices grouped_system = [0; 2; 5] /\
  mol_indices grouped_system = (Np.unique (f0 <$> grouped_records)).2 /\
  (ascending (f0 <$> grouped_records) = true <->
   mol_indices grouped_system = group_starts (f0 <$> grouped_records)).
Proof.
  split; [vm_compute; reflexivity|]. split; [vm_compute; reflexivity|].
  apply (mol_indices_group_starts sample_table sample_formula grouped_records
           unit_box grouped_system).
  vm_compute. reflexivity.
Defined.

Lemma write_gro_missing_data_witness :
  well_formed unnamed_water /\
  (lacks_groname unnamed_water \/ lacks_grotype unnamed_water \/
   box_vectors unnamed_water = None) /\
  exists msg,
    write_gro unnamed_water "out.gro" ∅ = (∅, Raise (Exception msg)) /\
    GromacsIO.write "out.gro" "system" unnamed_water ∅ = (∅, Raise (Exception msg)) /\
    ((msg = "Gromacs exporter need the residue name as groname"%string
      /\ lacks_groname unnamed_water) \/
     (msg = "Gromacs exporter needs the atom type as grotype"%string
      /\ lacks_grotype unnamed_water) \/
     (msg = need_box /\ box_vectors unnamed_water = None)).
Proof.
  assert (well_formed unnamed_water) as Hwf by (split; reflexivity).
  assert (lacks_groname unnamed_water \/ lacks_grotype unnamed_water \/
          box_vectors unnamed_water = None) as Hmissing.
  { left. exists 0, ∅. split; reflexivity. }
  split; [exact Hwf|]. split; [exact Hmissing|].
  exact (write_gro_missing_data unnamed_water "out.gro" ∅ Hwf Hmissing).
Defined.

Lemma read_lines_by_length_witness :
  Forall atom_length (water_atoms ++ [line_with_velocity]) /\
  length box_line <> 45 /\ length box_line <> 69 /\
  read_lines ((water_atoms ++ [line_with_velocity]) ++ box_line :: [txt "1SOL"; box_line]) [] =
    (let* rs := map_result parse_atom (water_atoms ++ [line_with_velocity]) in
     let* box := parse_box (Str.split box_line) in
     Ok ([] ++ rs, Some box))
  /\ Forall (fun l =>
        (length l = 45 -> parse_atom l = position_fields l) /\
        (length l = 69 ->
         parse_atom l =
         let* r := position_fields l in
         let* v := velocity_fields l in
         Ok r)) (water_atoms ++ [line_with_velocity]).
Proof.
  assert (Forall atom_length (water_atoms ++ [line_with_velocity])) as Hatoms.
  { repeat constructor; (left; reflexivity) || (right; reflexivity). }
  assert (length box_line <> 45) as H45 by (vm_compute; lia).
  assert (length box_line <> 69) as H69 by (vm_compute; lia).
  split; [exact Hatoms|]. split; [exact H45|]. split; [exact H69|].
  exact (read_lines_by_length _ box_line [txt "1SOL"; box_line] [] Hatoms H45 H69).
Defined.

Lemma uniform_system_last_line (n : nat) :
  0 < n ->
  exists lines,
    gro_lines (uniform_system n) = Ok lines /\
    lines !! (n + 1) =
    Some (format_atom 1 (txt "SOL") (txt "OW") (N.of_nat n mod 99999) zero zero zero).
Proof.
  intros Hn.
  assert (well_formed (uniform_system n)) as Hwf.
  { split; cbn [uniform_system mol_export mol_indices mol_n_atoms
                atom_export_array r_array n_mol n_atoms];
      rewrite ?length_replicate; try reflexivity.
    unfold visited, atoms_of. cbn. apply app_nil_r. }
  assert (mol_export (uniform_system n) !! 0 =
          Some ({[ "groname"%string := txt "SOL" ]} : dict)) as Emol by reflexivity.
  destruct (gro_lines_complete_Ok (uniform_system n) Hwf) as [lines Hlines].
  - intros (i & entry & H & Hnone). destruct i as [|i]; [|destruct i; discriminate H].
    rewrite Emol in H. injection H as <-.
    rewrite lookup_singleton_eq in Hnone. discriminate.
  - intros (k & entry & H & Hnone). cbn [uniform_system atom_export_array] in H.
    apply lookup_replicate in H as [-> _].
    rewrite lookup_singleton_eq in Hnone. discriminate.
  - discriminate.
  - exists lines. split; [exact Hlines|].
    destruct (gro_lines_shape _ _ Hlines) as (L & b & -> & _ & Hlen & Hat).
    assert (visited (uniform_system n) (n_mol (uniform_system n)) = seq 0 n) as Hv
      by apply Hwf.
    rewrite Hv, length_seq in Hlen.
    destruct (lookup_lt_is_Some_2 L (n - 1)) as [line Hline]; [lia|].
    replace (n + 1) with (length (header (uniform_system n)) + (n - 1))
      by (cbn [header length]; lia).
    rewrite lookup_app_r, Nat.add_comm, Nat.add_sub by lia.
    rewrite lookup_app_l by lia. rewrite Hline. f_equal.
    destruct (Hat _ _ Hline) as (k & Hk & Hatom).
    destruct Hatom as (i & o & m & mentry & res_name & aentry & at_name & x & y & z &
      Ho & Hm & Hrange & Hi & Hme & Hname & Hae & Hat_name & Hpos & ->).
    cbn [uniform_system n_mol] in Hi. assert (i = 0) as -> by lia.
    rewrite Emol in Hme. injection Hme as <-.
    rewrite lookup_singleton_eq in Hname. injection Hname as <-.
    cbn [uniform_system atom_export_array] in Hae.
    apply lookup_replicate in Hae as [-> _].
    rewrite lookup_singleton_eq in Hat_name. injection Hat_name as <-.
    cbn [uniform_system r_array] in Hpos.
    apply lookup_replicate in Hpos as [[= <- <- <-] _].
    do 2 f_equal. lia.
Qed.

(** C4, as stated, fails: of 100,001 atoms the last one is written with
    the serial 2 after four spaces, not after four zeros. *)
Lemma serial_of_atom_100001 :
  n_atoms (uniform_system (N.to_nat 100001)) = N.to_nat 100001 /\
  exists lines line,
    gro_lines (uniform_system (N.to_nat 100001)) = Ok lines /\
    lines !! (N.to_nat 100001 + 1) = Some line /\
    Str.slice 15 20 line = txt "    2" /\
    Str.slice 15 20 line <> txt "00002".
Proof.
  split; [exact eq_refl|].
  pose proof (uniform_system_last_line (N.to_nat 100001) ltac:(lia)) as H.
  destruct H as (lines & Hok & Hline).
  exists lines. eexists. split; [exact Hok|]. split; [exact Hline|].
  rewrite N2Nat.id.
  assert (Str.slice 15 20
            (format_atom 1 (txt "SOL") (txt "OW") (100001 mod 99999) zero zero zero)
          = txt "    2") as E by (vm_compute; reflexivity).
  rewrite E. split; [reflexivity|discriminate].
Qed.

Lemma serial_wraps_witness :
  gro_lines water = Ok water_written /\
  exists (L : list text) (b : matrix),
    water_written = header water ++ L ++ [format_box b.1.1.1.1 b.1.2.1.2 b.2.2] /\
    length L = length (visited water (n_mol water)) /\
    forall p line,
      L !! p = Some line ->
      (exists k, visited water (n_mol water) !! p = Some k /\
                 atom_line_of water p k line) /\
      length (Str.rjust 5 (Int.str (N.of_nat (p + 1) mod 99999))) = 5 /\
      (N.of_nat (p + 1) = 100001%N ->
       Str.rjust 5 (Int.str (N.of_nat (p + 1) mod 99999)) = txt "    2").
Proof.
  assert (gro_lines water = Ok water_written) as H by (vm_compute; reflexivity).
  split; [exact H|]. exact (serial_wraps water water_written H).
Defined.

Lemma parse_atom_drops_velocity_witness :
  atom_length line_with_velocity /\
  parse_atom line_with_velocity = Ok velocity_record /\
  position_fields line_with_velocity = Ok velocity_record /\
  parse_atom (take 44 line_with_velocity ++ [Str.newline]) = Ok velocity_record /\
  (length line_with_velocity = 69 ->
   exists v, velocity_fields line_with_velocity = Ok v).
Proof.
  assert (atom_length line_with_velocity) as Hlen by (right; reflexivity).
  assert (parse_atom line_with_velocity = Ok velocity_record) as Hr
    by (vm_compute; reflexivity).
  split; [exact Hlen|]. split; [exact Hr|].
  exact (parse_atom_drops_velocity line_with_velocity velocity_record Hlen Hr).
Defined.

(** C6, as stated, fails: a residue name of six characters makes every
    atom line one character too long, so that the first of them is
    taken for the box line. *)
Lemma long_name_breaks_round_trip :
  well_formed long_name_water /\
  ~ lacks_groname long_name_water /\ ~ lacks_grotype long_name_water /\
  box_vectors long_name_water = Some unit_box /\
  exists fs',
    GromacsIO.write "out.gro" "system" long_name_water ∅ = (fs', Ok tt) /\
    GromacsIO.read sample_table sample_formula "out.gro" "system" fs'
      = Raise ValueError.
Proof.
  split; [split; reflexivity|].
  split.
  { intros (i & entry & H & Hnone).
    destruct i as [|i]; [|destruct i; discriminate H].
    injection H as <-. rewrite lookup_singleton_eq in Hnone. discriminate. }
  split.
  { intros (k & entry & H & Hnone).
    destruct k as [|[|[|k]]]; [| | |destruct k; discriminate H];
      injection H as <-; rewrite lookup_singleton_eq in Hnone; discriminate. }
  split; [reflexivity|].
  assert (gro_lines long_name_water = Ok long_name_written) as Hw
    by (vm_compute; reflexivity).
  eexists. split.
  - unfold GromacsIO.write, write_gro.
    rewrite bool_decide_eq_true_2 by reflexivity. rewrite Hw. reflexivity.
  - unfold GromacsIO.read, GromacsIO.open_read.
    rewrite bool_decide_eq_true_2 by reflexivity.
    rewrite lookup_insert_eq. cbn [bind].
    assert ((parse_gro_lines sample_table sample_formula
               (Str.readlines
                  (concat ((fun l => l ++ [Str.newline]) <$> long_name_written)))).2
            = Raise ValueError) as -> by (vm_compute; reflexivity).
    reflexivity.
Qed.

Lemma fits_water : fits water.
Proof.
  split; [reflexivity|]. split; [|split; [|split]].
  - intros i entry H. destruct i as [|i]; [|destruct i; discriminate H].
    injection H as <-. exists (txt "SOL").
    split; [apply lookup_singleton_eq|].
    split; [vm_compute; lia|repeat constructor].
  - intros k entry H.
    destruct k as [|[|[|k]]]; [| | |destruct k; discriminate H]; injection H as <-.
    + exists (txt "OW"). split; [apply lookup_singleton_eq|].
      split; [vm_compute; lia|repeat constructor].
    + exists (txt "HW1"). split; [apply lookup_singleton_eq|].
      split; [vm_compute; lia|repeat constructor].
    + exists (txt "HW2"). split; [apply lookup_singleton_eq|].
      split; [vm_compute; lia|repeat constructor].
  - intros k x y z H.
    destruct k as [|[|[|k]]]; [| | |destruct k; discriminate H];
      injection H as <- <- <-; vm_compute; lia.
  - intros b H. injection H as <-. vm_compute. lia.
Defined.

Lemma write_then_read_witness :
  well_formed water /\ fits water /\ box_vectors water = Some unit_box /\
  exists (fs' : disk) (sys' : System) (a' b' c' : float),
    GromacsIO.write "out.gro" "system" water ∅ = (fs', Ok tt) /\
    GromacsIO.read sample_table sample_formula "out.gro" "system" fs'
      = Ok (Some sys') /\
    Forall2 same_position (r_array water) (r_array sys') /\
    box_vectors sys' =
      Some ((a', zero, zero), (zero, b', zero), (zero, zero, c')) /\
    same_rendering 5 unit_box.1.1.1.1 a' /\
    same_rendering 5 unit_box.1.2.1.2 b' /\
    same_rendering 5 unit_box.2.2 c'.
Proof.
  split; [exact well_formed_water|]. split; [exact fits_water|].
  split; [reflexivity|].
  exact (write_then_read sample_table sample_formula water "out.gro" ∅ unit_box
           well_formed_water fits_water eq_refl).
Defined.

Lemma parse_gro_lines_box_only_witness :
  Int.int (txt "    0
") = Ok 0%Z /\
  length box_line <> 45 /\ length box_line <> 69 /\
  map_result of_text (Str.split box_line) = Ok [one; one; one] /\
  (parse_gro_lines sample_table sample_formula
     [txt "Title
"; txt "    0
"; box_line]).2 =
  Ok {| r_array := []; mol_indices := []; type_array := [];
        atom_export_array := []; mol_export := []; mol_formula := [];
        box_vectors := Some unit_box;
        n_mol := 0; n_atoms := 0; mol_n_atoms := [] |}.
Proof.
  assert (Int.int (txt "    0
") = Ok 0%Z) as Hn by (vm_compute; reflexivity).
  assert (length box_line <> 45) as H45 by (vm_compute; lia).
  assert (length box_line <> 69) as H69 by (vm_compute; lia).
  assert (map_result of_text (Str.split box_line) = Ok [one; one; one]) as Hbox
    by (vm_compute; reflexivity).
  split; [exact Hn|]. split; [exact H45|]. split; [exact H69|]. split; [exact Hbox|].
  exact (parse_gro_lines_box_only sample_table sample_formula _ _ box_line
           0%Z one one one Hn H45 H69 Hbox).
Defined.

Lemma parse_gro_lines_no_box_witness :
  Forall atom_length (drop 2 (take 5 water_lines)) /\
  (exists e,
     (parse_gro_lines sample_table sample_formula (take 5 water_lines)).2 = Raise e)
  /\ (forall title count body n rs,
        take 5 water_lines = title :: count :: body ->
        Int.int count = Ok n ->
        map_result parse_atom body = Ok rs ->
        (parse_gro_lines sample_table sample_formula (take 5 water_lines)).2 =
        Raise (UnboundLocalError "box_vectors")).
Proof.
  assert (Forall atom_length (drop 2 (take 5 water_lines))) as H.
  { repeat constructor; left; reflexivity. }
  split; [exact H|].
  exact (parse_gro_lines_no_box sample_table sample_formula (take 5 water_lines) H).
Defined.

(** * More on the reader *)

(** ** The exceptions of the reader *)

Lemma int_raises (s : text) (e : exn) : Int.int s = Raise e -> e = ValueError.
Proof.
  unfold Int.int. destruct (Int.take_sign (Str.strip s)) as [neg body].
  destruct body as [|c body]; [congruence|].
  destruct (Int.digits_val 0 (c :: body)); congruence.
Qed.

Lemma of_text_raises (s : text) (e : exn) : of_text s = Raise e -> e = ValueError.
Proof.
  unfold of_text. destruct (Int.take_sign (Str.strip s)) as [neg body].
  destruct (_ || _); [discriminate|].
  destruct (bool_decide _); [discriminate|].
  destruct (span_digits body) as [d1 r1].
  destruct (match r1 with [] => _ | _ :: _ => _ end) as [d2 r2].
  destruct (d1 ++ d2) as [|c ds]; [congruence|].
  destruct (Int.digits_val 0 (c :: ds)); [|congruence].
  destruct (exponent r2); congruence.
Qed.

Lemma map_result_raises {A B} (f : A -> result B) (xs : list A) (e : exn) :
  (forall x e', f x = Raise e' -> e' = ValueError) ->
  map_result f xs = Raise e -> e = ValueError.
Proof.
  intros Hf. induction xs as [|x xs IH]; simpl; [discriminate|].
  destruct (f x) as [y|e'] eqn:Hx; simpl.
  - destruct (map_result f xs); simpl; [discriminate|].
    intros [= <-]. apply IH. reflexivity.
  - intros [= <-]. exact (Hf x e' Hx).
Qed.

Lemma map_result_length {A B} (f : A -> result B) (xs : list A) (ys : list B) :
  map_result f xs = Ok ys -> length ys = length xs.
Proof.
  revert ys. induction xs as [|x xs IH]; intros ys; simpl.
  - intros [= <-]. reflexivity.
  - destruct (f x); simpl; [|discriminate].
    destruct (map_result f xs) as [zs|]; simpl; [|discriminate].
    intros [= <-]. simpl. f_equal. apply IH. reflexivity.
Qed.

Lemma position_fields_raises (l : text) (e : exn) :
  position_fields l = Raise e -> e = ValueError.
Proof.
  unfold position_fields.
  destruct (Int.int (Str.slice 0 5 l)) eqn:E1; simpl;
    [|intros [= <-]; exact (int_raises _ _ E1)].
  destruct (Int.int (Str.slice 15 20 l)) eqn:E2; simpl;
    [|intros [= <-]; exact (int_raises _ _ E2)].
  destruct (of_text (Str.slice 20 28 l)) eqn:E3; simpl;
    [|intros [= <-]; exact (of_text_raises _ _ E3)].
  destruct (of_text (Str.slice 28 36 l)) eqn:E4; simpl;
    [|intros [= <-]; exact (of_text_raises _ _ E4)].
  destruct (of_text (Str.slice 36 44 l)) eqn:E5; simpl;
    [|intros [= <-]; exact (of_text_raises _ _ E5)].
  discriminate.
Qed.

Lemma velocity_fields_raises (l : text) (e : exn) :
  velocity_fields l = Raise e -> e = ValueError.
Proof.
  unfold velocity_fields.
  destruct (of_text (Str.slice 44 52 l)) eqn:E3; simpl;
    [|intros [= <-]; exact (of_text_raises _ _ E3)].
  destruct (of_text (Str.slice 52 60 l)) eqn:E4; simpl;
    [|intros [= <-]; exact (of_text_raises _ _ E4)].
  destruct (of_text (Str.slice 60 68 l)) eqn:E5; simpl;
    [|intros [= <-]; exact (of_text_raises _ _ E5)].
  discriminate.
Qed.

Lemma parse_atom_raises (l : text) (e : exn) :
  parse_atom l = Raise e -> e = ValueError.
Proof.
  destruct (decide (length l = 69)) as [H|H].
  - rewrite parse_atom_long by exact H.
    destruct (position_fields l) eqn:E1; simpl;
      [|intros [= <-]; exact (position_fields_raises _ _ E1)].
    destruct (velocity_fields l) eqn:E2; simpl;
      [discriminate|intros [= <-]; exact (velocity_fields_raises _ _ E2)].
  - rewrite parse_atom_short by exact H. apply position_fields_raises.
Qed.

Lemma parse_box_raises (fields : list text) (e : exn) :
  parse_box fields = Raise e -> e = ValueError.
Proof.
  unfold parse_box.
  destruct (map_result of_text fields) as [abc|e'] eqn:E; simpl.
  - destruct abc as [|a [|b [|c [|d abc]]]]; congruence.
  - intros [= <-]. exact (map_result_raises _ _ _ of_text_raises E).
Qed.

Lemma parse_box_three (fields : list text) (box : matrix) :
  parse_box fields = Ok box -> length fields = 3.
Proof.
  unfold parse_box.
  destruct (map_result of_text fields) as [abc|e'] eqn:E; simpl; [|discriminate].
  apply map_result_length in E.
  destruct abc as [|a [|b [|c [|d abc]]]]; try discriminate.
  intros _. simpl in E. congruence.
Qed.

Lemma read_lines_raises (lines : list text) (acc : list record) (e : exn) :
  read_lines lines acc = Raise e -> e = ValueError.
Proof.
  revert acc. induction lines as [|l lines IH]; intros acc; simpl; [discriminate|].
  destruct ((length l =? 45) || (length l =? 69)).
  - destruct (parse_atom l) as [r|e'] eqn:E; simpl; [apply IH|].
    intros [= <-]. exact (parse_atom_raises _ _ E).
  - destruct (parse_box (Str.split l)) as [box|e'] eqn:E; simpl; [discriminate|].
    intros [= <-]. exact (parse_box_raises _ _ E).
Qed.

Lemma read_lines_unbound (lines : list text) (acc datalist : list record) :
  read_lines lines acc = Ok (datalist, None) -> Forall atom_length lines.
Proof.
  revert acc. induction lines as [|l lines IH]; intros acc; simpl; [constructor|].
  destruct ((length l =? 45) || (length l =? 69)) eqn:E.
  - destruct (parse_atom l) as [r|e']; simpl; [|discriminate].
    intros H. constructor; [|exact (IH _ H)].
    apply orb_true_iff in E as [E|E]; apply Nat.eqb_eq in E; [left|right]; exact E.
  - destruct (parse_box (Str.split l)); simpl; discriminate.
Qed.

(** The reader raises nothing but [IndexError], for a file of less
    than two lines, [ValueError], for a field that is not a number or
    a box line that does not hold three numbers, and the unbound
    [box_vectors], which happens only when every line after the header
    is as long as an atom line. *)
Theorem parse_gro_lines_exceptions gro_to_cl make_formula (lines : list text) (e : exn) :
  (parse_gro_lines gro_to_cl make_formula lines).2 = Raise e ->
  (e = IndexError /\ length lines < 2) \/
  (e = ValueError /\ 2 <= length lines) \/
  (e = UnboundLocalError "box_vectors" /\ 2 <= length lines /\
   Forall atom_length (drop 2 lines)).
Proof.
  destruct lines as [|title [|count body]]; cbn [parse_gro_lines snd].
  - intros [= <-]. left. split; [reflexivity|simpl; lia].
  - intros [= <-]. left. split; [reflexivity|simpl; lia].
  - cbn [length drop].
    destruct (Int.int count) as [n|e'] eqn:En; cbn [bind].
    2: { intros [= <-]. right. left. split; [exact (int_raises _ _ En)|lia]. }
    destruct (read_lines body []) as [[datalist box]|e'] eqn:Er; cbn [bind fst snd].
    2: { intros [= <-]. right. left. split; [exact (read_lines_raises _ _ _ Er)|lia]. }
    destruct box as [box|].
    + destruct (assemble_ok gro_to_cl make_formula datalist box) as (names & _ & _ & ->).
      discriminate.
    + rewrite assemble_unbound. intros [= <-]. right. right.
      split; [reflexivity|]. split; [lia|]. exact (read_lines_unbound _ _ _ Er).
Qed.

(** ** The box line *)

(** A line that is not as long as an atom line and does not split into
    exactly three fields ends the reading with [ValueError], whatever
    the atom lines before it hold. *)
Theorem read_lines_box_fields (atoms : list text) (b : text) (post : list text)
    (acc : list record) :
  Forall atom_length atoms ->
  length b <> 45 -> length b <> 69 ->
  length (Str.split b) <> 3 ->
  read_lines (atoms ++ b :: post) acc = Raise ValueError.
Proof.
  intros Hatoms H45 H69 Hfields.
  destruct (read_lines (atoms ++ b :: post) acc) as [[datalist box]|e] eqn:E.
  - exfalso. rewrite read_lines_atoms in E by exact Hatoms.
    destruct (map_result parse_atom atoms) as [rs|]; cbn [bind] in E; [|discriminate].
    rewrite read_lines_box in E by assumption.
    destruct (parse_box (Str.split b)) as [m|] eqn:Eb; cbn [bind] in E; [|discriminate].
    exact (Hfields (parse_box_three _ _ Eb)).
  - f_equal. exact (read_lines_raises _ _ _ E).
Qed.
(** ** What the system read holds *)

Lemma parse_gro_lines_Ok gro_to_cl make_formula (title count : text)
    (body : list text) (sys : System) :
  (parse_gro_lines gro_to_cl make_formula (title :: count :: body)).2 = Ok sys ->
  exists n datalist box,
    Int.int count = Ok n /\
    read_lines body [] = Ok (datalist, Some box) /\
    assemble gro_to_cl make_formula datalist (Some box) = Ok sys.
Proof.
  cbn [parse_gro_lines snd].
  destruct (Int.int count) as [n|]; cbn [bind]; [|discriminate].
  destruct (read_lines body []) as [[datalist box]|] eqn:E; cbn [bind fst snd];
    [|discriminate].
  destruct box as [box|]; [|rewrite assemble_unbound; discriminate].
  intros H. exists n, datalist, box. auto.
Qed.

Lemma read_lines_records (atoms : list text) (b : text) (post : list text)
    (datalist : list record) (box : option matrix) :
  Forall atom_length atoms ->
  length b <> 45 -> length b <> 69 ->
  read_lines (atoms ++ b :: post) [] = Ok (datalist, box) ->
  map_result parse_atom atoms = Ok datalist.
Proof.
  intros Hatoms H45 H69. rewrite read_lines_atoms by exact Hatoms.
  destruct (map_result parse_atom atoms) as [rs|]; cbn [bind]; [|discriminate].
  rewrite read_lines_box by assumption.
  destruct (parse_box (Str.split b)); cbn [bind]; [|discriminate].
  intros [= <- _]. reflexivity.
Qed.

Lemma counts_length (end_ : nat) (idx : list nat) :
  length (counts end_ idx) = length idx.
Proof. induction idx as [|s rest IH]; simpl; congruence. Qed.

Lemma take_at_lookup {A} (a : list A) (idx : list nat) (xs : list A) :
  Np.take_at a idx = Ok xs ->
  forall i o, idx !! i = Some o -> exists x, a !! o = Some x /\ xs !! i = Some x.
Proof.
  unfold Np.take_at. revert xs. induction idx as [|o' idx IH]; intros xs; simpl.
  - intros _ i o H. destruct i; discriminate H.
  - unfold getitem at 1. destruct (a !! o') as [x|] eqn:Ex; simpl; [|discriminate].
    destruct (map_result (getitem a) idx) as [ys|]; simpl; [|discriminate].
    intros [= <-] i o H. destruct i as [|i].
    + injection H as <-. exists x. auto.
    + simpl in H. exact (IH ys eq_refl i o H).
Qed.

(** The number of atoms of the system read is the number of atom
    lines before the box line: the count that the second line declares
    only has to be a number, and any other title and count give the
    same system.  The arrays of the system have one entry for every
    atom, or one for every molecule. *)
Theorem atoms_are_counted gro_to_cl make_formula (title count : text)
    (atoms : list text) (b : text) (post : list text) (sys : System) :
  Forall atom_length atoms ->
  length b <> 45 -> length b <> 69 ->
  (parse_gro_lines gro_to_cl make_formula
     (title :: count :: atoms ++ b :: post)).2 = Ok sys ->
  n_atoms sys = length atoms /\
  length (r_array sys) = length atoms /\
  length (type_array sys) = length atoms /\
  length (atom_export_array sys) = length atoms /\
  length (mol_indices sys) = n_mol sys /\
  length (mol_export sys) = n_mol sys /\
  length (mol_formula sys) = n_mol sys /\
  length (mol_n_atoms sys) = n_mol sys /\
  forall (title' count' : text) (n' : Z),
    Int.int count' = Ok n' ->
    (parse_gro_lines gro_to_cl make_formula
       (title' :: count' :: atoms ++ b :: post)).2 = Ok sys.
Proof.
  intros Hatoms H45 H69 Hsys.
  destruct (parse_gro_lines_Ok _ _ _ _ _ _ Hsys) as (n & datalist & box & Hn & Hr & Ha).
  pose proof (read_lines_records _ _ _ _ _ Hatoms H45 H69 Hr) as Hrec.
  apply map_result_length in Hrec.
  destruct (assemble_ok gro_to_cl make_formula datalist box) as (names & _ & Hnames & E).
  clear Hsys. rewrite E in Ha. injection Ha as <-.
  cbn [n_atoms n_mol r_array type_array atom_export_array mol_indices mol_export
       mol_formula mol_n_atoms from_arrays].
  split; [rewrite length_fmap; exact Hrec|].
  split; [rewrite length_fmap; exact Hrec|].
  split; [rewrite !length_fmap; exact Hrec|].
  split; [rewrite !length_fmap; exact Hrec|].
  split; [reflexivity|].
  split; [rewrite length_fmap; exact Hnames|].
  split; [apply formulas_length|].
  split; [apply counts_length|].
  intros title' count' n' Hn'. cbn [parse_gro_lines snd].
  rewrite Hn'. cbn [bind]. rewrite Hr. cbn [bind fst snd]. exact E.
Qed.

(** The export information of the system read: every atom carries
    the atom name of its line as [grotype], at its position; every
    molecule carries as [groname] the molecule name of the record at
    its offset. *)
Theorem export_information gro_to_cl make_formula (datalist : list record)
    (box : matrix) (sys : System) :
  assemble gro_to_cl make_formula datalist (Some box) = Ok sys ->
  (forall k r, datalist !! k = Some r ->
     atom_export_array sys !! k = Some ({[ "grotype"%string := f2 r ]} : dict) /\
     r_array sys !! k = Some (f3 r, f4 r, f5 r)) /\
  (forall i o, mol_indices sys !! i = Some o ->
     exists r, datalist !! o = Some r /\
       mol_export sys !! i = Some ({[ "groname"%string := f1 r ]} : dict)).
Proof.
  intros Hsys.
  destruct (assemble_ok gro_to_cl make_formula datalist box) as (names & Ht & _ & E).
  rewrite E in Hsys. injection Hsys as <-.
  cbn [atom_export_array r_array mol_indices mol_export from_arrays]. split.
  - intros k r Hk. rewrite !list_lookup_fmap, Hk. split; reflexivity.
  - intros i o Hi.
    destruct (take_at_lookup _ _ _ Ht i o Hi) as (x & Hx & Hnames).
    rewrite list_lookup_fmap in Hx.
    destruct (datalist !! o) as [r|] eqn:Er; [|discriminate].
    injection Hx as <-. exists r. split; [reflexivity|].
    rewrite list_lookup_fmap, Hnames. reflexivity.
Qed.
(** * More on the writer *)

(** ** The file that is written *)

(** [write_gro] touches no file but the one it is given, and what
    that file held before plays no part: on success it holds the new
    text alone. *)
Theorem write_gro_frame (sys : System) (filename other : string) (fs : disk)
    (old : text) :
  other <> filename ->
  (write_gro sys filename fs).1 !! other = fs !! other /\
  ((write_gro sys filename fs).2 = Ok tt ->
   (write_gro sys filename (<[ filename := old ]> fs)).1 =
   (write_gro sys filename fs).1).
Proof.
  intros Hne. unfold write_gro.
  destruct (gro_lines sys) as [lines|e]; cbn [fst snd].
  - split; [apply lookup_insert_ne; congruence|].
    intros _. apply insert_insert_eq.
  - split; [reflexivity|discriminate].
Qed.

(** ** The width of the lines *)

(** An atom line has at least 44 characters, and exactly 44 (45 with
    its newline, the length by which the reader knows an atom line)
    when and only when every value fits its field; the box line has
    30 characters when and only when each length fits ten. *)
Theorem line_widths (res_n : N) (res_name at_name : text) (serial : N)
    (x y z a b c : float) :
  44 <= length (format_atom res_n res_name at_name serial x y z) /\
  (length (format_atom res_n res_name at_name serial x y z ++ [Str.newline]) = 45
   <->
   length (Int.str res_n) <= 5 /\ length res_name <= 5 /\ length at_name <= 5 /\
   length (Int.str serial) <= 5 /\ length (format_f 3 x) <= 8 /\
   length (format_f 3 y) <= 8 /\ length (format_f 3 z) <= 8) /\
  (length (format_box a b c) = 30 <->
   length (format_f 5 a) <= 10 /\ length (format_f 5 b) <= 10 /\
   length (format_f 5 c) <= 10).
Proof.
  unfold format_atom, format_box.
  rewrite !length_app, !rjust_length, !ljust_length. cbn [length]. lia.
Qed.

(** ** The order of the checks *)

Lemma gro_lines_with_box (sys : System) (b : matrix) :
  gro_lines (with_box sys b) =
  let* st := for_each (write_molecule sys) (seq 0 (n_mol sys))
               (0%N, header sys) in
  Ok (st.2 ++ [format_box b.1.1.1.1 b.1.2.1.2 b.2.2]).
Proof. reflexivity. Qed.

Lemma well_formed_with_box (sys : System) (b : matrix) :
  well_formed sys -> well_formed (with_box sys b).
Proof. intros [H1 H2 H3 H4 H5 H6]. split; assumption. Qed.

(** The box is looked at after the two loops: when [write_gro] fails
    for the missing box, no molecule lacks its [groname] and no atom
    its [grotype]. *)
Theorem box_checked_last (sys : System) :
  well_formed sys ->
  gro_lines sys = Raise (Exception need_box) ->
  box_vectors sys = None /\ ~ lacks_groname sys /\ ~ lacks_grotype sys.
Proof.
  intros Hwf H.
  set (b := ((zero, zero, zero), (zero, zero, zero), (zero, zero, zero)) : matrix).
  pose proof (gro_lines_with_box sys b) as Hb.
  pose proof (well_formed_with_box sys b Hwf) as Hwfb.
  unfold gro_lines in H. fold (header sys) in H.
  destruct (for_each (write_molecule sys) (seq 0 (n_mol sys)) (0%N, header sys))
    as [st|e] eqn:E; cbn [bind] in H, Hb.
  - destruct (box_vectors sys) as [b'|] eqn:Ebox; [discriminate H|].
    split; [reflexivity|].
    destruct (gro_lines_Ok_complete _ _ Hwfb Hb) as (Hg & Ht & _).
    split; [exact Hg|exact Ht].
  - exfalso. injection H as ->.
    pose proof (gro_lines_outcome (with_box sys b)) as Ho. rewrite Hb in Ho.
    destruct Ho as [[[Hm _]|[[Hm _]|[_ Hm]]]|[Hm _]]; discriminate Hm.
Qed.

(** ** The atom count of the header *)

(** For a system whose molecules cover its atoms, the file has three
    lines more than the system has atoms, and its second line reads
    back as the number of atoms. *)
Theorem written_atom_count (sys : System) (lines : list text) :
  well_formed sys ->
  gro_lines sys = Ok lines ->
  length lines = n_atoms sys + 3 /\
  exists count,
    lines !! 1 = Some count /\
    Int.int (count ++ [Str.newline]) = Ok (Z.of_nat (n_atoms sys)).
Proof.
  intros Hwf Hok.
  destruct (gro_lines_shape sys lines Hok) as (L & b & -> & _ & Hlen & _).
  destruct Hwf as [_ _ _ _ _ Hv]. rewrite Hv, length_seq in Hlen.
  split.
  - rewrite !length_app. cbn [length header]. lia.
  - eexists. split; [reflexivity|].
    rewrite int_newline, int_rjust_str. f_equal. lia.
Qed.
(** ** [unique] returns first occurrences *)

Lemma insert_lex (x : Z * nat) (l : list (Z * nat)) :
  StronglySorted lex l -> Forall (fun y => x.2 < y.2) l ->
  StronglySorted lex (Np.insert x l).
Proof.
  induction 1 as [|y l Hl IH Hy]; intros Hidx; simpl.
  - repeat constructor.
  - inversion Hidx as [|? ? Hxy Hidx']; subst.
    destruct (x.1 <=? y.1)%Z eqn:E.
    + apply Z.leb_le in E. constructor; [constructor; assumption|].
      constructor; [unfold lex; lia|].
      rewrite Forall_forall in Hy, Hidx'. apply Forall_forall. intros z Hz.
      specialize (Hy z Hz). specialize (Hidx' z Hz). unfold lex in *. lia.
    + apply Z.leb_gt in E. constructor; [apply IH; exact Hidx'|].
      apply insert_Forall; [unfold lex; lia|exact Hy].
Qed.

Lemma sort_from_lex (ar : list Z) (a : nat) :
  StronglySorted lex (foldr Np.insert [] (zip ar (seq a (length ar)))) /\
  Forall (fun y : Z * nat => a <= y.2) (foldr Np.insert [] (zip ar (seq a (length ar)))).
Proof.
  revert a. induction ar as [|v ar IH]; intros a; simpl.
  - split; constructor.
  - destruct (IH (S a)) as [Hs Hi]. split.
    + apply insert_lex; [exact Hs|].
      eapply Forall_impl; [exact Hi|]. intros y Hy. simpl in *. lia.
    + apply insert_Forall; [simpl; lia|].
      eapply Forall_impl; [exact Hi|]. intros y Hy. simpl in *. lia.
Qed.

Lemma sort_indexed_lex (ar : list Z) : StronglySorted lex (Np.sort_indexed ar).
Proof. apply (sort_from_lex ar 0). Qed.

Lemma insert_elem (x y : Z * nat) (l : list (Z * nat)) :
  x ∈ Np.insert y l <-> x = y \/ x ∈ l.
Proof.
  induction l as [|z l IH]; simpl.
  - rewrite list_elem_of_singleton. split; [auto|]. intros [H|H]; [exact H|].
    inversion H.
  - destruct (y.1 <=? z.1)%Z.
    + rewrite elem_of_cons. reflexivity.
    + rewrite !elem_of_cons, IH. tauto.
Qed.

Lemma sort_indexed_complete (ar : list Z) (k : nat) (v : Z) :
  ar !! k = Some v -> (v, k) ∈ Np.sort_indexed ar.
Proof.
  intros Hk. unfold Np.sort_indexed.
  assert ((v, k) ∈ zip ar (seq 0 (length ar))) as Hin.
  { apply list_elem_of_lookup. exists k. apply lookup_zip_with_Some.
    exists v, k. split; [reflexivity|]. split; [exact Hk|].
    apply lookup_seq. split; [reflexivity|]. eapply lookup_lt_Some; exact Hk. }
  induction (zip ar (seq 0 (length ar))) as [|y l IH]; simpl.
  - inversion Hin.
  - apply insert_elem. apply elem_of_cons in Hin as [->|Hin]; [left; reflexivity|].
    right. exact (IH Hin).
Qed.

Lemma run_heads_elem (prev : option Z) (aux : list (Z * nat)) (h : Z * nat) :
  h ∈ Np.run_heads prev aux -> h ∈ aux.
Proof.
  revert prev. induction aux as [|[v i] aux IH]; intros prev; simpl.
  - intros H. exact H.
  - destruct (bool_decide (prev = Some v)).
    + intros H. right. exact (IH _ H).
    + intros H. apply elem_of_cons in H as [->|H]; [left|right; exact (IH _ H)].
Qed.

Lemma lex_sorted_above (v : Z) (i : nat) (aux : list (Z * nat)) :
  Forall (lex (v, i)) aux -> Forall (fun y : Z * nat => (v <= y.1)%Z) aux.
Proof.
  intros H. eapply Forall_impl; [exact H|].
  intros y Hy. unfold lex in Hy. simpl in Hy. lia.
Qed.

Lemma heads_above (v : Z) (aux : list (Z * nat)) :
  StronglySorted lex aux ->
  Forall (fun y : Z * nat => (v <= y.1)%Z) aux ->
  Forall (fun h : Z * nat => (v < h.1)%Z) (Np.run_heads (Some v) aux).
Proof.
  intros H. revert v. induction H as [|[w i] aux Haux IH Hw]; intros v Hv; simpl.
  - constructor.
  - inversion Hv as [|? ? Hvw Hv']; subst. simpl in Hvw.
    destruct (bool_decide (Some v = Some w)) eqn:E.
    + apply bool_decide_eq_true in E. injection E as <-. apply IH. exact Hv'.
    + apply bool_decide_eq_false in E. assert (v <> w) by congruence.
      constructor; [simpl; lia|].
      eapply Forall_impl; [apply IH, (lex_sorted_above w i); exact Hw|].
      intros h Hh. simpl in Hh. lia.
Qed.

Lemma heads_first (prev : option Z) (aux : list (Z * nat)) :
  StronglySorted lex aux ->
  (forall p, prev = Some p -> Forall (fun y : Z * nat => (p <= y.1)%Z) aux) ->
  forall h y, h ∈ Np.run_heads prev aux -> y ∈ aux -> y.1 = h.1 -> h.2 <= y.2.
Proof.
  intros H. revert prev. induction H as [|[v i] aux Haux IH Hv]; intros prev Hprev h y.
  - intros Hh. inversion Hh.
  - pose proof (lex_sorted_above v i aux Hv) as Habove.
    pose proof (heads_above v aux Haux Habove) as Hrest.
    assert (forall h, h ∈ Np.run_heads (Some v) aux -> y ∈ (v, i) :: aux ->
              y.1 = h.1 -> h.2 <= y.2) as Htail.
    { intros h' Hh' Hy Heq.
      rewrite Forall_forall in Hrest. specialize (Hrest h' Hh').
      apply elem_of_cons in Hy as [->|Hy]; [simpl in Heq; lia|].
      apply (IH (Some v)); try assumption.
      intros p [= <-]. exact Habove. }
    cbn [Np.run_heads]. destruct (bool_decide (prev = Some v)).
    + apply Htail.
    + intros Hh Hy Heq. apply elem_of_cons in Hh as [->|Hh]; [|exact (Htail h Hh Hy Heq)].
      apply elem_of_cons in Hy as [->|Hy]; [reflexivity|].
      rewrite Forall_forall in Hv. specialize (Hv y Hy).
      unfold lex in Hv. simpl in *. lia.
Qed.

Lemma heads_cover (prev : option Z) (aux : list (Z * nat)) (y : Z * nat) :
  y ∈ aux ->
  (exists h, h ∈ Np.run_heads prev aux /\ h.1 = y.1) \/ prev = Some y.1.
Proof.
  revert prev. induction aux as [|[v i] aux IH]; intros prev Hy.
  - inversion Hy.
  - cbn [Np.run_heads]. apply elem_of_cons in Hy as [->|Hy].
    + destruct (bool_decide (prev = Some v)) eqn:E.
      * apply bool_decide_eq_true in E. right. exact E.
      * left. exists (v, i). split; [left|reflexivity].
    + destruct (IH (Some v) Hy) as [(h & Hh & Heq)|Hs].
      * left. exists h. split; [|exact Heq].
        destruct (bool_decide (prev = Some v)); [exact Hh|right; exact Hh].
      * injection Hs as Hs. destruct (bool_decide (prev = Some v)) eqn:E.
        -- apply bool_decide_eq_true in E. right. congruence.
        -- left. exists (v, i). split; [left|simpl; congruence].
Qed.

Lemma unique_first (ar : list Z) (o : nat) :
  o ∈ (Np.unique ar).2 ->
  exists v, ar !! o = Some v /\ forall j, ar !! j = Some v -> o <= j.
Proof.
  unfold Np.unique. cbn [snd]. intros Ho.
  apply list_elem_of_fmap in Ho as ([v o'] & -> & Hh). cbn [snd].
  pose proof (run_heads_elem _ _ _ Hh) as Hin.
  pose proof (sort_indexed_at_index ar) as Hat. rewrite Forall_forall in Hat.
  exists v. split; [exact (Hat _ Hin)|].
  intros j Hj.
  apply (heads_first None (Np.sort_indexed ar) (sort_indexed_lex ar)
           ltac:(intros p [=]) (v, o') (v, j) Hh);
    [exact (sort_indexed_complete ar j v Hj)|reflexivity].
Qed.

Lemma unique_cover (ar : list Z) (k : nat) (v : Z) :
  ar !! k = Some v -> exists o, o ∈ (Np.unique ar).2 /\ ar !! o = Some v.
Proof.
  intros Hk. unfold Np.unique. cbn [snd].
  destruct (heads_cover None _ _ (sort_indexed_complete ar k v Hk))
    as [([w o] & Hh & Heq)|H]; [|discriminate H].
  simpl in Heq. subst w. exists o. split.
  - apply list_elem_of_fmap. exists (v, o). split; [reflexivity|exact Hh].
  - pose proof (sort_indexed_at_index ar) as Hat. rewrite Forall_forall in Hat.
    exact (Hat _ (run_heads_elem _ _ _ Hh)).
Qed.

(** Molecules are told apart by the value of the molecule index: every
    molecule offset of the system read is the first record that has its
    molecule index, every record has its molecule index at one of the
    offsets, and no two offsets have the same molecule index. *)
Theorem molecule_offsets_first_occurrence gro_to_cl make_formula
    (datalist : list record) (box : matrix) (sys : System) :
  assemble gro_to_cl make_formula datalist (Some box) = Ok sys ->
  (forall o, o ∈ mol_indices sys ->
     exists r, datalist !! o = Some r /\
       forall j r', datalist !! j = Some r' -> f0 r' = f0 r -> o <= j) /\
  (forall k r, datalist !! k = Some r ->
     exists o r', o ∈ mol_indices sys /\ datalist !! o = Some r' /\ f0 r' = f0 r) /\
  (forall o o' r r', o ∈ mol_indices sys -> o' ∈ mol_indices sys ->
     datalist !! o = Some r -> datalist !! o' = Some r' -> f0 r = f0 r' -> o = o').
Proof.
  intros Hsys.
  destruct (assemble_ok gro_to_cl make_formula datalist box) as (names & _ & _ & E).
  rewrite E in Hsys. injection Hsys as <-. cbn [mol_indices from_arrays].
  assert (forall o, o ∈ (Np.unique (f0 <$> datalist)).2 ->
            exists r, datalist !! o = Some r /\
              forall j r', datalist !! j = Some r' -> f0 r' = f0 r -> o <= j) as Hfirst.
  { intros o Ho. destruct (unique_first _ _ Ho) as (v & Hv & Hmin).
    rewrite list_lookup_fmap in Hv.
    destruct (datalist !! o) as [r|] eqn:Er; [|discriminate].
    injection Hv as <-. exists r. split; [reflexivity|].
    intros j r' Hj Heq. apply Hmin. rewrite list_lookup_fmap, Hj. simpl. congruence. }
  split; [exact Hfirst|]. split.
  - intros k r Hk.
    destruct (unique_cover (f0 <$> datalist) k (f0 r)) as (o & Ho & Hv).
    { rewrite list_lookup_fmap, Hk. reflexivity. }
    rewrite list_lookup_fmap in Hv.
    destruct (datalist !! o) as [r'|] eqn:Er; [|discriminate].
    injection Hv as Hv. exists o, r'. auto.
  - intros o o' r r' Ho Ho' Hr Hr' Heq.
    destruct (Hfirst o Ho) as (r1 & E1 & H1).
    destruct (Hfirst o' Ho') as (r2 & E2 & H2).
    rewrite Hr in E1. injection E1 as <-. rewrite Hr' in E2. injection E2 as <-.
    pose proof (H1 o' r' Hr' (eq_sym Heq)). pose proof (H2 o r Hr Heq). lia.
Qed.
(** * Reading, then writing *)

Lemma group_starts_bounds (prev : option Z) (i : nat) (ar : list Z) :
  Forall (fun o => i <= o < i + length ar) (group_starts_from prev i ar).
Proof.
  revert prev i. induction ar as [|v ar IH]; intros prev i; simpl; [constructor|].
  assert (Forall (fun o => i <= o < i + S (length ar))
            (group_starts_from (Some v) (S i) ar)) as H.
  { eapply Forall_impl; [apply IH|]. intros o Ho. simpl in Ho. lia. }
  destruct (bool_decide (prev = Some v)); [exact H|].
  constructor; [lia|exact H].
Qed.

Lemma group_starts_sorted (prev : option Z) (i : nat) (ar : list Z) :
  StronglySorted lt (group_starts_from prev i ar).
Proof.
  revert prev i. induction ar as [|v ar IH]; intros prev i; simpl; [constructor|].
  destruct (bool_decide (prev = Some v)); [apply IH|].
  constructor; [apply IH|].
  eapply Forall_impl; [apply (group_starts_bounds (Some v) (S i) ar)|].
  intros o Ho. simpl in Ho. lia.
Qed.

Lemma group_starts_head (v : Z) (ar : list Z) :
  exists rest, group_starts (v :: ar) = 0 :: rest.
Proof. eexists. reflexivity. Qed.

Lemma concat_chunks (end_ : nat) (idx : list nat) :
  StronglySorted lt idx -> Forall (fun o => o <= end_) idx ->
  concat (zip_with seq idx (counts end_ idx)) =
  match idx with
  | [] => []
  | s :: _ => seq s (end_ - s)
  end.
Proof.
  induction 1 as [|s idx Hidx IH Hs]; intros Hend; [reflexivity|].
  inversion Hend as [|? ? Hse Hend']; subst.
  cbn [counts zip_with concat]. rewrite (IH Hend').
  destruct idx as [|e rest].
  - apply app_nil_r.
  - inversion Hs as [|? ? Hlt _]; subst. inversion Hend' as [|? ? Hee _]; subst.
    replace (end_ - s) with ((e - s) + (end_ - e)) by lia.
    rewrite seq_app. do 2 f_equal. lia.
Qed.

Lemma flat_map_lookups (idx cnts : list nat) :
  length cnts = length idx ->
  flat_map (fun i => match idx !! i, cnts !! i with
                     | Some o, Some n => seq o n
                     | _, _ => []
                     end) (seq 0 (length idx)) =
  concat (zip_with seq idx cnts).
Proof.
  revert cnts. induction idx as [|o idx IH]; intros cnts Hlen; [reflexivity|].
  destruct cnts as [|n cnts]; [discriminate|]. injection Hlen as Hlen.
  cbn [length seq flat_map zip_with concat]. f_equal.
  rewrite <- seq_shift, flat_map_concat_map, map_map, <- flat_map_concat_map.
  exact (IH cnts Hlen).
Qed.

Lemma singleton_has {A} (key : string) (f : A -> text) (xs : list A) (i : nat)
    (entry : dict) :
  ((fun x => {[ key := f x ]} : dict) <$> xs) !! i = Some entry ->
  exists v, entry !! key = Some v.
Proof.
  rewrite list_lookup_fmap. destruct (xs !! i) as [x|]; [|discriminate].
  intros [= <-]. exists (f x). apply lookup_singleton_eq.
Qed.

Lemma Ok_inj {A} (a b : A) : Ok a = Ok b -> a = b.
Proof. intros [= H]. exact H. Qed.

(** A file whose molecule indices never decrease is read as a system
    whose molecules are runs of consecutive atoms that cover the atoms
    in order, and such a system is written without error, with one
    line for every atom line that was read. *)
Theorem read_system_is_written gro_to_cl make_formula (datalist : list record)
    (box : matrix) (sys : System) :
  assemble gro_to_cl make_formula datalist (Some box) = Ok sys ->
  ascending (f0 <$> datalist) = true ->
  well_formed sys /\
  exists lines, gro_lines sys = Ok lines /\ length lines = length datalist + 3.
Proof.
  intros Hsys Hasc.
  destruct (assemble_ok gro_to_cl make_formula datalist box) as (names & _ & Hnames & E).
  rewrite (unique_ascending _ Hasc) in E, Hnames.
  set (idx := group_starts (f0 <$> datalist)) in *.
  rewrite E in Hsys. apply Ok_inj in Hsys. subst sys.
  match goal with |- well_formed ?s /\ _ => set (sys := s) end.
  assert (well_formed sys) as Hwf.
  { split; cbn [sys mol_export mol_indices mol_n_atoms atom_export_array r_array
                 n_mol n_atoms from_arrays].
    - rewrite length_fmap. exact Hnames.
    - reflexivity.
    - apply counts_length.
    - rewrite !length_fmap. reflexivity.
    - reflexivity.
    - unfold visited, atoms_of.
      cbn [sys mol_indices mol_n_atoms n_mol n_atoms from_arrays].
      rewrite flat_map_lookups by apply counts_length.
      rewrite concat_chunks.
      + rewrite length_fmap. unfold idx.
        destruct datalist as [|r datalist]; [reflexivity|].
        cbn [fmap list_fmap].
        destruct (group_starts_head (f0 r) (f0 <$> datalist)) as [rest ->].
        cbn [length]. f_equal.
      + apply group_starts_sorted.
      + eapply Forall_impl; [apply (group_starts_bounds None 0)|].
        intros o Ho. simpl in Ho. rewrite !length_fmap in *. lia. }
  split; [exact Hwf|].
  destruct (gro_lines_complete_Ok sys Hwf) as [lines Hlines].
  - intros (i & entry & Hentry & Hnone).
    destruct (singleton_has "groname" (fun g : text => g) names i entry Hentry)
      as [v Hv]. congruence.
  - intros (k & entry & Hentry & Hnone).
    cbn [sys atom_export_array from_arrays] in Hentry.
    destruct (singleton_has "grotype" (fun g : text => g) _ k entry Hentry)
      as [v Hv]. congruence.
  - discriminate.
  - exists lines. split; [exact Hlines|].
    destruct (gro_lines_shape sys lines Hlines) as (L & b & -> & _ & Hlen & _).
    destruct Hwf as [_ _ _ _ _ Hv]. rewrite Hv, length_seq in Hlen.
    rewrite !length_app, Hlen. cbn [length header sys n_atoms from_arrays].
    rewrite length_fmap. lia.
Qed.
(** * Names and molecules through a file *)

Lemma atom_line_record (sys : System) (p : nat) (line : text) :
  fits sys ->
  atom_line_of sys p p line ->
  no_newline line /\ length (line ++ [Str.newline]) = 45 /\
  exists r, parse_atom (line ++ [Str.newline]) = Ok r /\ record_of_atom sys p r.
Proof.
  intros (Hn & Hm & Ha & Hr & _)
    (i & o & n & mentry & res_name & aentry & at_name & x & y & z &
     Ho & Hcount & Hk & Hi & Hme & Hname & Hae & Hat & Hpos & ->).
  destruct (Hm i mentry Hme) as (name & E & Hlen1 & Hnl1).
  rewrite Hname in E. injection E as <-.
  destruct (Ha p aentry Hae) as (name & E & Hlen2 & Hnl2).
  rewrite Hat in E. injection E as <-.
  destruct (Hr p x y z Hpos) as (Hx & Hy & Hz).
  split; [apply format_atom_no_newline; assumption|].
  assert (length (Int.str (N.of_nat (i + 1))) <= 5) as H1.
  { apply str_length; [|lia]. change (10 ^ N.of_nat 5)%N with 100000%N. lia. }
  assert (length (Int.str (N.of_nat (p + 1) mod 99999)) <= 5) as H4.
  { apply str_length; [|lia]. change (10 ^ N.of_nat 5)%N with 100000%N.
    pose proof (N.mod_upper_bound (N.of_nat (p + 1)) 99999 ltac:(lia)). lia. }
  destruct (parse_atom_format_atom (N.of_nat (i + 1)) res_name at_name
              (N.of_nat (p + 1) mod 99999) x y z H1 Hlen1 Hlen2 H4 Hx Hy Hz)
    as (Hlen & x' & y' & z' & Hparse & Ex & Ey & Ez).
  split; [exact Hlen|].
  eexists. split; [exact Hparse|].
  exists i, o, n, mentry, res_name, aentry, at_name, (x, y, z).
  repeat split; try assumption; try lia.
  unfold f0. cbn [fst]. lia.
Qed.

Lemma map_result_lookups {A B} (f : A -> result B) (Q : nat -> B -> Prop)
    (xs : list A) :
  (forall k x, xs !! k = Some x -> exists y, f x = Ok y /\ Q k y) ->
  exists ys, map_result f xs = Ok ys /\ length ys = length xs /\
             forall k y, ys !! k = Some y -> Q k y.
Proof.
  revert Q. induction xs as [|x xs IH]; intros Q H.
  - exists []. repeat split. intros k y Hk. destruct k; discriminate Hk.
  - destruct (H 0 x eq_refl) as (y & Hy & Hq).
    destruct (IH (fun k => Q (S k))) as (ys & Hys & Hlen & Hall).
    { intros k x' Hk. exact (H (S k) x' Hk). }
    exists (y :: ys). simpl. rewrite Hy, Hys. split; [reflexivity|].
    split; [simpl; congruence|].
    intros k y' Hk. destruct k as [|k]; [injection Hk as <-; exact Hq|].
    exact (Hall k y' Hk).
Qed.

(** What is read from the file that [write] wrote, for a system that
    fits: the records of its atoms, in order, and the diagonal of its
    box. *)
Lemma written_file_records (sys : System) (filename : string) (fs : disk)
    (b : matrix) :
  well_formed sys -> fits sys -> box_vectors sys = Some b ->
  exists (fs' : disk) (rs : list record) (box' : matrix),
    GromacsIO.write filename "system" sys fs = (fs', Ok tt) /\
    length rs = n_atoms sys /\
    (forall k r, rs !! k = Some r -> record_of_atom sys k r) /\
    forall gro_to_cl make_formula,
      GromacsIO.read gro_to_cl make_formula filename "system" fs' =
      let* sys' := assemble gro_to_cl make_formula rs (Some box') in
      Ok (Some sys').
Proof.
  intros Hwf Hfits Hbox.
  destruct (fits_complete sys Hfits) as [Hg Ht].
  destruct (gro_lines_complete_Ok sys Hwf Hg Ht) as [lines Hlines];
    [congruence|].
  destruct (gro_lines_shape sys lines Hlines) as (L & b0 & -> & Hb0 & Hlen & Hat).
  rewrite Hbox in Hb0. injection Hb0 as <-.
  pose proof Hwf as [_ _ _ _ Hra Hv].
  rewrite Hv, length_seq in Hlen.
  assert (forall k line, L !! k = Some line ->
            no_newline line /\ length (line ++ [Str.newline]) = 45 /\
            exists r, parse_atom (line ++ [Str.newline]) = Ok r /\
                      record_of_atom sys k r) as HL.
  { intros k line Hline.
    destruct (Hat k line Hline) as (k' & Hk & Hatom).
    rewrite Hv in Hk. apply lookup_seq in Hk as [-> _].
    exact (atom_line_record sys k line Hfits Hatom). }
  assert (Forall atom_length ((fun l : text => l ++ [Str.newline]) <$> L)) as Hatoms.
  { apply Forall_fmap, Forall_forall. intros line Hin.
    apply list_elem_of_lookup in Hin as [p Hp].
    destruct (HL p line Hp) as (_ & H45 & _). left. exact H45. }
  assert (Forall no_newline L) as HnlL.
  { apply Forall_forall. intros line Hin.
    apply list_elem_of_lookup in Hin as [p Hp].
    destruct (HL p line Hp) as (H & _). exact H. }
  destruct (map_result_lookups parse_atom (record_of_atom sys)
              ((fun l : text => l ++ [Str.newline]) <$> L)) as (rs & Hrs & Hrlen & Hrec).
  { intros k x Hk. rewrite list_lookup_fmap in Hk.
    destruct (L !! k) as [line|] eqn:Eline; [|discriminate].
    injection Hk as <-. destruct (HL k line Eline) as (_ & _ & H). exact H. }
  destruct Hfits as (_ & _ & _ & _ & Hfb).
  destruct (Hfb b Hbox) as (Hba & Hbb & Hbc).
  destruct (parse_box_format_box b.1.1.1.1 b.1.2.1.2 b.2.2 Hba Hbb Hbc)
    as (Hlen31 & a' & b' & c' & Hpbox & _).
  set (all := header sys ++ L ++ [format_box b.1.1.1.1 b.1.2.1.2 b.2.2]) in *.
  assert (Forall no_newline all) as Hall.
  { unfold all. rewrite !Forall_app. split; [apply header_no_newline|].
    split; [exact HnlL|]. repeat constructor. apply format_box_no_newline. }
  eexists _, rs, _. split.
  { unfold GromacsIO.write, write_gro.
    rewrite bool_decide_eq_true_2 by reflexivity.
    rewrite Hlines. reflexivity. }
  split; [rewrite Hrlen, length_fmap; exact Hlen|].
  split; [exact Hrec|].
  intros gro_to_cl make_formula.
  unfold GromacsIO.read. rewrite bool_decide_eq_true_2 by reflexivity.
  unfold GromacsIO.open_read. rewrite lookup_insert_eq. cbn [bind].
  rewrite (readlines_concat all Hall).
  unfold all, header. rewrite !fmap_app. cbn [fmap list_fmap app].
  unfold parse_gro_lines. cbn [snd].
  rewrite int_newline, int_rjust_str. cbn [bind].
  change (list_fmap text text (fun l : text => l ++ [Str.newline]) L)
    with ((fun l : text => l ++ [Str.newline]) <$> L).
  rewrite read_lines_atoms by exact Hatoms.
  rewrite Hrs. cbn [bind app].
  rewrite read_lines_box by lia.
  rewrite Hpbox. cbn [bind fst snd]. reflexivity.
Qed.
(** ** Padded names *)

Lemma rev_padding (n : nat) : rev (replicate n Str.space) = replicate n Str.space.
Proof.
  induction n as [|n IH]; [reflexivity|].
  cbn [replicate rev]. rewrite IH. symmetry. apply replicate_cons_app.
Qed.

Lemma strip_ljust (w : nat) (s : text) : no_space s -> Str.strip (Str.ljust w s) = s.
Proof.
  intros H. unfold Str.strip, Str.ljust.
  destruct s as [|c s].
  - cbn [app length]. rewrite <- (app_nil_r (replicate _ _)), lstrip_padding. reflexivity.
  - assert (Str.lstrip ((c :: s) ++ replicate (w - length (c :: s)) Str.space) =
            (c :: s) ++ replicate (w - length (c :: s)) Str.space) as ->.
    { inversion H as [|? ? Hc _]; subst. cbn [app Str.lstrip]. rewrite Hc. reflexivity. }
    unfold Str.rstrip. rewrite rev_app_distr, rev_padding, lstrip_padding.
    rewrite lstrip_no_space by (apply Forall_rev; exact H).
    apply rev_involutive.
Qed.

(** ** Molecules that cover the atoms *)

Lemma chunks_structure (idx cnts : list nat) (a m : nat) :
  length cnts = length idx ->
  Forall (fun c => 0 < c) cnts ->
  concat (zip_with seq idx cnts) = seq a m ->
  (forall i o c, idx !! i = Some o -> cnts !! i = Some c -> a <= o /\ o + c <= a + m) /\
  (forall i i' o c o', i < i' -> idx !! i = Some o -> cnts !! i = Some c ->
                       idx !! i' = Some o' -> o + c <= o').
Proof.
  revert cnts a m. induction idx as [|o idx IH]; intros cnts a m Hlen Hpos Hcat.
  - split; intros i; intros; destruct i; discriminate.
  - destruct cnts as [|c cnts]; [discriminate|]. injection Hlen as Hlen.
    inversion Hpos as [|? ? Hc Hpos']; subst.
    cbn [zip_with concat] in Hcat.
    assert (o = a /\ c <= m) as [-> Hcm].
    { pose proof (f_equal length Hcat) as Hl.
      rewrite length_app, !length_seq in Hl.
      destruct c as [|c]; [lia|]. destruct m as [|m]; [simpl in Hl; lia|].
      cbn [seq app] in Hcat. injection Hcat as -> _. lia. }
    replace m with (c + (m - c)) in Hcat by lia.
    rewrite seq_app in Hcat. apply app_inv_head in Hcat.
    destruct (IH cnts (a + c) (m - c) Hlen Hpos' Hcat) as [Hb Ho].
    split.
    + intros i o' c' Hi Hci. destruct i as [|i].
      * injection Hi as <-. injection Hci as <-. lia.
      * destruct (Hb i o' c' Hi Hci). lia.
    + intros i i' o1 c1 o2 Hlt H1 Hc1 H2. destruct i' as [|i']; [lia|].
      destruct i as [|i].
      * injection H1 as <-. injection Hc1 as <-.
        destruct (lookup_lt_is_Some_2 cnts i') as [c2 Hc2].
        { rewrite Hlen. eapply lookup_lt_Some. exact H2. }
        destruct (Hb i' o2 c2 H2 Hc2). lia.
      * apply (Ho i i' o1 c1 o2); [lia|assumption..].
Qed.

Lemma sorted_lt_ext (l l' : list nat) :
  StronglySorted lt l -> StronglySorted lt l' ->
  (forall x, x ∈ l <-> x ∈ l') -> l = l'.
Proof.
  intros H. revert l'. induction H as [|x l Hl IH Hx]; intros l' H' Hext.
  - destruct l' as [|y l']; [reflexivity|].
    exfalso. assert (y ∈ []) as Hy by (apply Hext; left). inversion Hy.
  - destruct H' as [|y l' Hl' Hy].
    { exfalso. assert (x ∈ []) as Hin by (apply Hext; left). inversion Hin. }
    rewrite Forall_forall in Hx, Hy.
    assert (x = y) as <-.
    { assert (x ∈ y :: l') as H1 by (apply Hext; left).
      assert (y ∈ x :: l) as H2 by (apply Hext; left).
      apply elem_of_cons in H1 as [H1|H1]; [exact H1|].
      apply elem_of_cons in H2 as [H2|H2]; [congruence|].
      specialize (Hx y H2). specialize (Hy x H1). lia. }
    f_equal. apply IH; [exact Hl'|]. intros z. split; intros Hz.
    + assert (z ∈ x :: l') as H1 by (apply Hext; right; exact Hz).
      apply elem_of_cons in H1 as [->|H1]; [|exact H1].
      specialize (Hx x Hz). lia.
    + assert (z ∈ x :: l) as H1 by (apply Hext; right; exact Hz).
      apply elem_of_cons in H1 as [->|H1]; [|exact H1].
      specialize (Hy x Hz). lia.
Qed.

Lemma ascending_by_lookup (ar : list Z) :
  (forall k v w, ar !! k = Some v -> ar !! S k = Some w -> (v <= w)%Z) ->
  ascending ar = true.
Proof.
  induction ar as [|x ar IH]; intros H; [reflexivity|].
  destruct ar as [|y ar]; [reflexivity|].
  change (ascending (x :: y :: ar)) with ((x <=? y)%Z && ascending (y :: ar)).
  apply andb_true_iff. split.
  - apply Z.leb_le. exact (H 0 x y eq_refl eq_refl).
  - apply IH. intros k v w Hv Hw. exact (H (S k) v w Hv Hw).
Qed.
(** ** Names through a file *)

(** The atom names of the system come back from the file as they are,
    at the same atoms, when they have no white space (and the system
    fits the fields); the symbols of the system read are those the
    table gives for them. *)
Theorem atom_names_round_trip gro_to_cl make_formula (sys : System)
    (filename : string) (fs : disk) (b : matrix) :
  well_formed sys -> fits sys -> box_vectors sys = Some b ->
  (forall k entry name, atom_export_array sys !! k = Some entry ->
     entry !! "grotype"%string = Some name -> no_space name) ->
  exists (fs' : disk) (sys' : System),
    GromacsIO.write filename "system" sys fs = (fs', Ok tt) /\
    GromacsIO.read gro_to_cl make_formula filename "system" fs' = Ok (Some sys') /\
    n_atoms sys' = n_atoms sys /\
    forall k entry name,
      atom_export_array sys !! k = Some entry ->
      entry !! "grotype"%string = Some name ->
      atom_export_array sys' !! k = Some ({[ "grotype"%string := name ]} : dict) /\
      type_array sys' !! k = Some (default (txt "Unknown") (gro_to_cl !! name)).
Proof.
  intros Hwf Hfits Hbox Hnames.
  destruct (written_file_records sys filename fs b Hwf Hfits Hbox)
    as (fs' & rs & box' & Hw & Hlen & Hrec & Hread).
  destruct (assemble_ok gro_to_cl make_formula rs box') as (names & _ & _ & E).
  eexists fs', _. split; [exact Hw|].
  split; [rewrite Hread, E; reflexivity|].
  cbn [n_atoms atom_export_array type_array from_arrays].
  split; [rewrite length_fmap; exact Hlen|].
  intros k entry name Hentry Hname.
  destruct (lookup_lt_is_Some_2 rs k) as [r Hr].
  { rewrite Hlen. destruct Hwf as [_ _ _ Hae _ _]. rewrite <- Hae.
    eapply lookup_lt_Some. exact Hentry. }
  destruct (Hrec k r Hr)
    as (i & o & n & mentry & res_name & aentry & at_name & pos &
        _ & _ & _ & _ & _ & _ & Hae & Hat & _ & _ & _ & Hf2 & _).
  rewrite Hentry in Hae. injection Hae as <-.
  rewrite Hname in Hat. injection Hat as <-.
  rewrite strip_rjust in Hf2 by exact (Hnames k entry name Hentry Hname).
  rewrite !list_lookup_fmap, Hr. cbn [fmap option_fmap option_map].
  rewrite Hf2. split; reflexivity.
Qed.

(** ** Molecules through a file *)

(** The molecules of the system come back from the file, each at its
    offset and with its name, when no molecule is empty and the names
    have no white space (and the system fits the fields). *)
Theorem molecules_round_trip gro_to_cl make_formula (sys : System)
    (filename : string) (fs : disk) (b : matrix) :
  well_formed sys -> fits sys -> box_vectors sys = Some b ->
  Forall (fun c => 0 < c) (mol_n_atoms sys) ->
  (forall i entry name, mol_export sys !! i = Some entry ->
     entry !! "groname"%string = Some name -> no_space name) ->
  exists (fs' : disk) (sys' : System),
    GromacsIO.write filename "system" sys fs = (fs', Ok tt) /\
    GromacsIO.read gro_to_cl make_formula filename "system" fs' = Ok (Some sys') /\
    mol_indices sys' = mol_indices sys /\
    n_mol sys' = n_mol sys /\
    forall i entry name,
      mol_export sys !! i = Some entry ->
      entry !! "groname"%string = Some name ->
      mol_export sys' !! i = Some ({[ "groname"%string := name ]} : dict).
Proof.
  intros Hwf Hfits Hbox Hpos Hnames.
  destruct (written_file_records sys filename fs b Hwf Hfits Hbox)
    as (fs' & rs & box' & Hw & Hlen & Hrec & Hread).
  destruct (assemble_ok gro_to_cl make_formula rs box') as (names & Ht & _ & E).
  pose proof Hwf as [Hme Hmi Hmn _ _ Hv].
  (* the molecules are runs in order *)
  assert (concat (zip_with seq (mol_indices sys) (mol_n_atoms sys)) =
          seq 0 (n_atoms sys)) as Hcat.
  { rewrite <- Hv, <- Hmi. symmetry. apply flat_map_lookups. lia. }
  destruct (chunks_structure _ _ 0 _ (eq_trans Hmn (eq_sym Hmi)) Hpos Hcat)
    as [Hbound Horder].
  assert (forall i i' o c o' c' k,
            mol_indices sys !! i = Some o -> mol_n_atoms sys !! i = Some c ->
            mol_indices sys !! i' = Some o' -> mol_n_atoms sys !! i' = Some c' ->
            o <= k < o + c -> o' <= k < o' + c' -> i = i') as Huniq.
  { intros i i' o c o' c' k Ho Hc Ho' Hc' Hk Hk'.
    destruct (Nat.lt_trichotomy i i') as [Hlt|[Heq|Hgt]]; [|exact Heq|].
    - pose proof (Horder i i' o c o' Hlt Ho Hc Ho'). lia.
    - pose proof (Horder i' i o' c' o Hgt Ho' Hc' Ho). lia. }
  (* the record at the offset of a molecule *)
  assert (forall i o, mol_indices sys !! i = Some o ->
            exists r mentry res_name,
              rs !! o = Some r /\ f0 r = Z.of_nat (i + 1) /\
              mol_export sys !! i = Some mentry /\
              mentry !! "groname"%string = Some res_name /\
              f1 r = Str.strip (Str.ljust 5 res_name)) as Hstart.
  { intros i o Ho.
    destruct (lookup_lt_is_Some_2 (mol_n_atoms sys) i) as [c Hc].
    { rewrite Hmn, <- Hmi. eapply lookup_lt_Some. exact Ho. }
    assert (0 < c) as Hcpos.
    { rewrite Forall_forall in Hpos. apply Hpos.
      apply list_elem_of_lookup. exists i. exact Hc. }
    destruct (Hbound i o c Ho Hc) as [_ Hoc].
    destruct (lookup_lt_is_Some_2 rs o) as [r Hr]; [lia|].
    destruct (Hrec o r Hr)
      as (i' & o' & n' & mentry & res_name & aentry & at_name & pos &
          Ho' & Hn' & Hk & _ & Hme' & Hname & _ & _ & _ & Hf0 & Hf1 & _).
    assert (i' = i) as -> by (apply (Huniq i' i o' n' o c o); try assumption; lia).
    exists r, mentry, res_name. auto. }
  (* the molecule of a record *)
  assert (forall k r, rs !! k = Some r ->
            exists i o c, mol_indices sys !! i = Some o /\
              mol_n_atoms sys !! i = Some c /\ o <= k < o + c /\
              f0 r = Z.of_nat (i + 1)) as Hmol.
  { intros k r Hr.
    destruct (Hrec k r Hr)
      as (i & o & n & mentry & res_name & aentry & at_name & pos &
          Ho & Hn & Hk & _ & _ & _ & _ & _ & _ & Hf0 & _).
    exists i, o, n. auto. }
  (* the molecule indices never decrease *)
  assert (ascending (f0 <$> rs) = true) as Hasc.
  { apply ascending_by_lookup. intros k v w Hk Hk'.
    rewrite list_lookup_fmap in Hk, Hk'.
    destruct (rs !! k) as [r|] eqn:Er; [|discriminate].
    destruct (rs !! S k) as [r'|] eqn:Er'; [|discriminate].
    injection Hk as <-. injection Hk' as <-.
    destruct (Hmol k r Er) as (i & o & c & Ho & Hc & Hin & ->).
    destruct (Hmol (S k) r' Er') as (i' & o' & c' & Ho' & Hc' & Hin' & ->).
    destruct (Nat.le_gt_cases i i') as [Hle|Hgt]; [lia|].
    pose proof (Horder i' i o' c' o Hgt Ho' Hc' Ho). lia. }
  (* the offsets read are the offsets of the molecules *)
  assert (forall o, o ∈ (Np.unique (f0 <$> rs)).2 ->
            exists i, mol_indices sys !! i = Some o /\
                      (f0 <$> rs) !! o = Some (Z.of_nat (i + 1))) as Hfwd.
  { intros o Hin. destruct (unique_first _ _ Hin) as (v & Hval & Hmin).
    pose proof Hval as Hv'. rewrite list_lookup_fmap in Hv'.
    destruct (rs !! o) as [r|] eqn:Er; [|discriminate]. injection Hv' as <-.
    destruct (Hmol o r Er) as (i & oi & c & Ho & Hc & Hk & Hf0).
    destruct (Hstart i oi Ho) as (ri & _ & _ & Hri & Hf0i & _).
    assert (o <= oi) as Hle.
    { apply Hmin. rewrite list_lookup_fmap, Hri. simpl. congruence. }
    assert (o = oi) as -> by lia.
    exists i. split; [exact Ho|]. rewrite Hval. congruence. }
  assert ((Np.unique (f0 <$> rs)).2 = mol_indices sys) as Hidx.
  { rewrite (unique_ascending _ Hasc).
    apply sorted_lt_ext.
    - apply group_starts_sorted.
    - clear -Hbound Horder Hmn Hmi Hpos.
      assert (forall i o, mol_indices sys !! i = Some o ->
                exists c, mol_n_atoms sys !! i = Some c /\ 0 < c) as Hc.
      { intros i o Ho.
        destruct (lookup_lt_is_Some_2 (mol_n_atoms sys) i) as [c Hc].
        { rewrite Hmn, <- Hmi. eapply lookup_lt_Some. exact Ho. }
        exists c. split; [exact Hc|]. rewrite Forall_forall in Hpos. apply Hpos.
        apply list_elem_of_lookup. exists i. exact Hc. }
      revert Horder Hc. generalize (mol_n_atoms sys) as cnts.
      generalize (mol_indices sys) as idx. clear.
      induction idx as [|o idx IH]; intros cnts Horder Hc; [constructor|].
      constructor.
      + apply (IH (tail cnts)).
        * intros i i' o1 c1 o2 Hlt H1 Hc1 H2.
          apply (Horder (S i) (S i') o1 c1 o2); [lia|exact H1| |exact H2].
          destruct cnts; [destruct i; discriminate Hc1|exact Hc1].
        * intros i o1 H1. destruct (Hc (S i) o1 H1) as (c & Hci & Hcpos).
          exists c. split; [|exact Hcpos]. destruct cnts; [discriminate Hci|exact Hci].
      + apply Forall_forall. intros o' Hin.
        apply list_elem_of_lookup in Hin as [i' Hi'].
        destruct (Hc 0 o eq_refl) as (c & Hc0 & Hcpos).
        pose proof (Horder 0 (S i') o c o' ltac:(lia) eq_refl Hc0 Hi'). lia.
    - intros o. rewrite <- (unique_ascending _ Hasc). split.
      + intros Hin. destruct (Hfwd o Hin) as (i & Ho & _).
        apply list_elem_of_lookup. exists i. exact Ho.
      + intros Hin. apply list_elem_of_lookup in Hin as [i Ho].
        destruct (Hstart i o Ho) as (r & _ & _ & Hr & Hf0 & _).
        destruct (unique_cover (f0 <$> rs) o (Z.of_nat (i + 1))) as (o' & Hin' & Hv').
        { rewrite list_lookup_fmap, Hr. simpl. congruence. }
        destruct (Hfwd o' Hin') as (i' & Ho' & Hv'').
        rewrite Hv' in Hv''. assert (i' = i) as -> by (injection Hv''; lia).
        rewrite Ho in Ho'. injection Ho' as <-. exact Hin'. }
  eexists fs', _. split; [exact Hw|].
  split; [rewrite Hread, E; reflexivity|].
  cbn [mol_indices n_mol mol_export from_arrays].
  split; [exact Hidx|]. split; [rewrite Hidx; exact Hmi|].
  intros i entry name Hentry Hname.
  destruct (lookup_lt_is_Some_2 (mol_indices sys) i) as [o Ho].
  { rewrite Hmi, <- Hme. eapply lookup_lt_Some. exact Hentry. }
  destruct (Hstart i o Ho) as (r & mentry & res_name & Hr & _ & Hme' & Hname' & Hf1).
  rewrite Hentry in Hme'. injection Hme' as <-.
  rewrite Hname in Hname'. injection Hname' as <-.
  rewrite strip_ljust in Hf1 by exact (Hnames i entry name Hentry Hname).
  rewrite <- Hidx in Ho.
  destruct (take_at_lookup _ _ _ Ht i o Ho) as (x & Hx & Hnm).
  rewrite list_lookup_fmap, Hr in Hx. injection Hx as <-.
  rewrite list_lookup_fmap, Hnm. cbn [fmap option_fmap option_map].
  rewrite Hf1. reflexivity.
Qed.
(** * The names that are read *)

Lemma lstrip_head (s : text) (c : ascii) (t : text) :
  Str.lstrip s = c :: t -> Str.is_space c = false.
Proof.
  induction s as [|d s IH]; simpl; [discriminate|].
  destruct (Str.is_space d) eqn:E; [exact IH|].
  intros [= <- _]. exact E.
Qed.

Lemma lstrip_suffix (s : text) : exists p, s = p ++ Str.lstrip s.
Proof.
  induction s as [|d s [p IH]]; simpl; [exists []; reflexivity|].
  destruct (Str.is_space d); [|exists []; reflexivity].
  exists (d :: p). simpl. f_equal. exact IH.
Qed.

Lemma rstrip_prefix (s : text) : exists u, s = Str.rstrip s ++ u.
Proof.
  unfold Str.rstrip. destruct (lstrip_suffix (rev s)) as [p Hp].
  exists (rev p). rewrite <- rev_app_distr, <- Hp, rev_involutive. reflexivity.
Qed.

Lemma strip_length (s : text) : length (Str.strip s) <= length s.
Proof.
  unfold Str.strip.
  destruct (rstrip_prefix (Str.lstrip s)) as [u Hu].
  destruct (lstrip_suffix s) as [p Hp].
  pose proof (f_equal length Hu) as H1. pose proof (f_equal length Hp) as H2.
  rewrite length_app in H1, H2. lia.
Qed.

Lemma strip_tight (s : text) :
  (forall c t, Str.strip s = c :: t -> Str.is_space c = false) /\
  (forall t c, Str.strip s = t ++ [c] -> Str.is_space c = false).
Proof.
  unfold Str.strip. split.
  - intros c t H. destruct (rstrip_prefix (Str.lstrip s)) as [u Hu].
    rewrite H in Hu. exact (lstrip_head s c (t ++ u) Hu).
  - intros t c H. unfold Str.rstrip in H.
    apply (f_equal (@rev ascii)) in H. rewrite rev_involutive, rev_unit in H.
    exact (lstrip_head _ c _ H).
Qed.

Lemma slice_length (a b : nat) (s : text) : length (Str.slice a b s) <= b - a.
Proof. unfold Str.slice. rewrite length_take. lia. Qed.

(** The two names of a record are the name columns without the white
    space around them: they have at most five characters, and neither
    starts nor ends with white space. *)
Theorem names_read_are_tight (l : text) (r : record) :
  parse_atom l = Ok r ->
  (length (f1 r) <= 5 /\ length (f2 r) <= 5) /\
  (forall c t, f1 r = c :: t \/ f2 r = c :: t -> Str.is_space c = false) /\
  (forall t c, f1 r = t ++ [c] \/ f2 r = t ++ [c] -> Str.is_space c = false).
Proof.
  intros H.
  assert (f1 r = Str.strip (Str.slice 5 10 l) /\
          f2 r = Str.strip (Str.slice 10 15 l)) as [-> ->].
  { assert (position_fields l = Ok r) as Hp.
    { destruct (decide (length l = 69)) as [E|E].
      - rewrite parse_atom_long in H by exact E.
        destruct (position_fields l) as [r'|]; cbn [bind] in H; [|discriminate].
        destruct (velocity_fields l); cbn [bind] in H; congruence.
      - rewrite parse_atom_short in H by exact E. exact H. }
    unfold position_fields in Hp.
    destruct (Int.int (Str.slice 0 5 l)); cbn [bind] in Hp; [|discriminate].
    destruct (Int.int (Str.slice 15 20 l)); cbn [bind] in Hp; [|discriminate].
    destruct (of_text (Str.slice 20 28 l)); cbn [bind] in Hp; [|discriminate].
    destruct (of_text (Str.slice 28 36 l)); cbn [bind] in Hp; [|discriminate].
    destruct (of_text (Str.slice 36 44 l)); cbn [bind] in Hp; [|discriminate].
    injection Hp as <-. split; reflexivity. }
  split; [|split].
  - pose proof (strip_length (Str.slice 5 10 l)).
    pose proof (strip_length (Str.slice 10 15 l)).
    pose proof (slice_length 5 10 l). pose proof (slice_length 10 15 l). lia.
  - intros c t [E|E]; exact (proj1 (strip_tight _) c t E).
  - intros t c [E|E]; exact (proj2 (strip_tight _) t c E).
Qed.

(** ** The further properties on the sample data *)

Lemma parse_gro_lines_exceptions_witness :
  (parse_gro_lines sample_table sample_formula (take 5 water_lines)).2 =
    Raise (UnboundLocalError "box_vectors") /\
  ((UnboundLocalError "box_vectors" = IndexError /\ length (take 5 water_lines) < 2) \/
   (UnboundLocalError "box_vectors" = ValueError /\ 2 <= length (take 5 water_lines)) \/
   (UnboundLocalError "box_vectors" = UnboundLocalError "box_vectors" /\
    2 <= length (take 5 water_lines) /\
    Forall atom_length (drop 2 (take 5 water_lines)))).
Proof.
  assert ((parse_gro_lines sample_table sample_formula (take 5 water_lines)).2 =
          Raise (UnboundLocalError "box_vectors")) as H by (vm_compute; reflexivity).
  split; [exact H|].
  exact (parse_gro_lines_exceptions sample_table sample_formula _ _ H).
Defined.

Lemma read_lines_box_fields_witness :
  Forall atom_length water_atoms /\
  length short_box_line <> 45 /\ length short_box_line <> 69 /\
  length (Str.split short_box_line) <> 3 /\
  read_lines (water_atoms ++ short_box_line :: [box_line]) [] = Raise ValueError.
Proof.
  assert (Forall atom_length water_atoms) as Hatoms
    by (repeat constructor; left; reflexivity).
  assert (length short_box_line <> 45) as H45 by (vm_compute; lia).
  assert (length short_box_line <> 69) as H69 by (vm_compute; lia).
  assert (length (Str.split short_box_line) <> 3) as H3 by (vm_compute; lia).
  split; [exact Hatoms|]. split; [exact H45|]. split; [exact H69|].
  split; [exact H3|].
  exact (read_lines_box_fields water_atoms short_box_line [box_line] []
           Hatoms H45 H69 H3).
Defined.

Lemma atoms_are_counted_witness :
  Forall atom_length water_atoms /\
  length box_line <> 45 /\ length box_line <> 69 /\
  (parse_gro_lines sample_table sample_formula
     (txt "Title
" :: txt "3
" :: water_atoms ++ box_line :: [])).2 = Ok water /\
  n_atoms water = length water_atoms /\
  length (r_array water) = length water_atoms /\
  length (type_array water) = length water_atoms /\
  length (atom_export_array water) = length water_atoms /\
  length (mol_indices water) = n_mol water /\
  length (mol_export water) = n_mol water /\
  length (mol_formula water) = n_mol water /\
  length (mol_n_atoms water) = n_mol water /\
  forall (title' count' : text) (n' : Z),
    Int.int count' = Ok n' ->
    (parse_gro_lines sample_table sample_formula
       (title' :: count' :: water_atoms ++ box_line :: [])).2 = Ok water.
Proof.
  assert (Forall atom_length water_atoms) as Hatoms
    by (repeat constructor; left; reflexivity).
  assert (length box_line <> 45) as H45 by (vm_compute; lia).
  assert (length box_line <> 69) as H69 by (vm_compute; lia).
  assert ((parse_gro_lines sample_table sample_formula
             (txt "Title
" :: txt "3
" :: water_atoms ++ box_line :: [])).2 = Ok water) as H
    by (vm_compute; reflexivity).
  split; [exact Hatoms|]. split; [exact H45|]. split; [exact H69|]. split; [exact H|].
  exact (atoms_are_counted sample_table sample_formula _ _ water_atoms box_line []
           water Hatoms H45 H69 H).
Defined.

Lemma grouped_system_read :
  assemble sample_table sample_formula grouped_records (Some unit_box)
  = Ok grouped_system.
Proof. vm_compute. reflexivity. Defined.

Lemma export_information_witness :
  assemble sample_table sample_formula grouped_records (Some unit_box)
    = Ok grouped_system /\
  (forall k r, grouped_records !! k = Some r ->
     atom_export_array grouped_system !! k
       = Some ({[ "grotype"%string := f2 r ]} : dict) /\
     r_array grouped_system !! k = Some (f3 r, f4 r, f5 r)) /\
  (forall i o, mol_indices grouped_system !! i = Some o ->
     exists r, grouped_records !! o = Some r /\
       mol_export grouped_system !! i = Some ({[ "groname"%string := f1 r ]} : dict)).
Proof.
  split; [exact grouped_system_read|].
  exact (export_information sample_table sample_formula grouped_records unit_box
           grouped_system grouped_system_read).
Defined.

Lemma write_gro_frame_witness :
  "other.gro"%string <> "out.gro"%string /\
  (write_gro water "out.gro" ∅).1 !! "other.gro"%string
    = (∅ : disk) !! "other.gro"%string /\
  ((write_gro water "out.gro" ∅).2 = Ok tt ->
   (write_gro water "out.gro" (<[ "out.gro"%string := txt "old" ]> ∅)).1 =
   (write_gro water "out.gro" ∅).1).
Proof.
  assert ("other.gro"%string <> "out.gro"%string) as H by discriminate.
  split; [exact H|].
  exact (write_gro_frame water "out.gro" "other.gro" ∅ (txt "old") H).
Defined.

Lemma well_formed_boxless_water : well_formed boxless_water.
Proof. split; reflexivity. Defined.

Lemma box_checked_last_witness :
  well_formed boxless_water /\
  gro_lines boxless_water = Raise (Exception need_box) /\
  box_vectors boxless_water = None /\
  ~ lacks_groname boxless_water /\ ~ lacks_grotype boxless_water.
Proof.
  assert (gro_lines boxless_water = Raise (Exception need_box)) as H
    by (vm_compute; reflexivity).
  split; [exact well_formed_boxless_water|]. split; [exact H|].
  exact (box_checked_last boxless_water well_formed_boxless_water H).
Defined.

Lemma written_atom_count_witness :
  well_formed water /\ gro_lines water = Ok water_written /\
  length water_written = n_atoms water + 3 /\
  exists count,
    water_written !! 1 = Some count /\
    Int.int (count ++ [Str.newline]) = Ok (Z.of_nat (n_atoms water)).
Proof.
  assert (gro_lines water = Ok water_written) as H by (vm_compute; reflexivity).
  split; [exact well_formed_water|]. split; [exact H|].
  exact (written_atom_count water water_written well_formed_water H).
Defined.

Lemma molecule_offsets_first_occurrence_witness :
  assemble sample_table sample_formula grouped_records (Some unit_box)
    = Ok grouped_system /\
  (forall o, o ∈ mol_indices grouped_system ->
     exists r, grouped_records !! o = Some r /\
       forall j r', grouped_records !! j = Some r' -> f0 r' = f0 r -> o <= j) /\
  (forall k r, grouped_records !! k = Some r ->
     exists o r', o ∈ mol_indices grouped_system /\
       grouped_records !! o = Some r' /\ f0 r' = f0 r) /\
  (forall o o' r r', o ∈ mol_indices grouped_system ->
     o' ∈ mol_indices grouped_system ->
     grouped_records !! o = Some r -> grouped_records !! o' = Some r' ->
     f0 r = f0 r' -> o = o').
Proof.
  split; [exact grouped_system_read|].
  exact (molecule_offsets_first_occurrence sample_table sample_formula
           grouped_records unit_box grouped_system grouped_system_read).
Defined.

Lemma read_system_is_written_witness :
  assemble sample_table sample_formula grouped_records (Some unit_box)
    = Ok grouped_system /\
  ascending (f0 <$> grouped_records) = true /\
  well_formed grouped_system /\
  exists lines,
    gro_lines grouped_system = Ok lines /\
    length lines = length grouped_records + 3.
Proof.
  split; [exact grouped_system_read|]. split; [reflexivity|].
  exact (read_system_is_written sample_table sample_formula grouped_records
           unit_box grouped_system grouped_system_read eq_refl).
Defined.

Lemma water_atom_names :
  forall k entry name, atom_export_array water !! k = Some entry ->
    entry !! "grotype"%string = Some name -> no_space name.
Proof.
  intros k entry name H Hname.
  destruct k as [|[|[|k]]]; [| | |destruct k; discriminate H];
    injection H as <-; rewrite lookup_singleton_eq in Hname;
    injection Hname as <-; repeat constructor.
Defined.

Lemma water_molecule_names :
  forall i entry name, mol_export water !! i = Some entry ->
    entry !! "groname"%string = Some name -> no_space name.
Proof.
  intros i entry name H Hname.
  destruct i as [|i]; [|destruct i; discriminate H].
  injection H as <-. rewrite lookup_singleton_eq in Hname.
  injection Hname as <-. repeat constructor.
Defined.

Lemma atom_names_round_trip_witness :
  well_formed water /\ fits water /\ box_vectors water = Some unit_box /\
  (forall k entry name, atom_export_array water !! k = Some entry ->
     entry !! "grotype"%string = Some name -> no_space name) /\
  exists (fs' : disk) (sys' : System),
    GromacsIO.write "out.gro" "system" water ∅ = (fs', Ok tt) /\
    GromacsIO.read sample_table sample_formula "out.gro" "system" fs'
      = Ok (Some sys') /\
    n_atoms sys' = n_atoms water /\
    forall k entry name,
      atom_export_array water !! k = Some entry ->
      entry !! "grotype"%string = Some name ->
      atom_export_array sys' !! k = Some ({[ "grotype"%string := name ]} : dict) /\
      type_array sys' !! k = Some (default (txt "Unknown") (sample_table !! name)).
Proof.
  split; [exact well_formed_water|]. split; [exact fits_water|].
  split; [reflexivity|]. split; [exact water_atom_names|].
  exact (atom_names_round_trip sample_table sample_formula water "out.gro" ∅
           unit_box well_formed_water fits_water eq_refl water_atom_names).
Defined.

Lemma molecules_round_trip_witness :
  well_formed water /\ fits water /\ box_vectors water = Some unit_box /\
  Forall (fun c => 0 < c) (mol_n_atoms water) /\
  (forall i entry name, mol_export water !! i = Some entry ->
     entry !! "groname"%string = Some name -> no_space name) /\
  exists (fs' : disk) (sys' : System),
    GromacsIO.write "out.gro" "system" water ∅ = (fs', Ok tt) /\
    GromacsIO.read sample_table sample_formula "out.gro" "system" fs'
      = Ok (Some sys') /\
    mol_indices sys' = mol_indices water /\
    n_mol sys' = n_mol water /\
    forall i entry name,
      mol_export water !! i = Some entry ->
      entry !! "groname"%string = Some name ->
      mol_export sys' !! i = Some ({[ "groname"%string := name ]} : dict).
Proof.
  assert (Forall (fun c => 0 < c) (mol_n_atoms water)) as Hpos
    by (repeat constructor).
  split; [exact well_formed_water|]. split; [exact fits_water|].
  split; [reflexivity|]. split; [exact Hpos|]. split; [exact water_molecule_names|].
  exact (molecules_round_trip sample_table sample_formula water "out.gro" ∅
           unit_box well_formed_water fits_water eq_refl Hpos water_molecule_names).
Defined.

Lemma names_read_are_tight_witness :
  parse_atom line_with_velocity = Ok velocity_record /\
  (length (f1 velocity_record) <= 5 /\ length (f2 velocity_record) <= 5) /\
  (forall c t, f1 velocity_record = c :: t \/ f2 velocity_record = c :: t ->
     Str.is_space c = false) /\
  (forall t c, f1 velocity_record = t ++ [c] \/ f2 velocity_record = t ++ [c] ->
     Str.is_space c = false).
Proof.
  assert (parse_atom line_with_velocity = Ok velocity_record) as H
    by (vm_compute; reflexivity).
  split; [exact H|].
  exact (names_read_are_tight line_with_velocity velocity_record H).
Defined.
